(** * KRR_OneVsAll_RandBin: the one-vs-all kernel ridge regression driver

    A shallow embedding of [codes_KRR_randbin/KRR_OneVsAll_RandBin.cpp]:
    the argument parser, the hyperparameter sweep with its reseeding of the
    generator, the row-compressed stores that [main] fills by hand (the
    joint random binning feature store and the identity preconditioner),
    the label recoding [ConvertYtrain] and the two [Performance] scorers.

    Conventions.
    - [int] and [long] values are integers of [Z]; every arithmetic
      operation the source performs on them is followed by its 32 or 64
      bit wrap-around.
    - C arrays are lists; a read or a write outside the allocated range is
      undefined behaviour in the source and [None] here.
    - [double] values are exact rationals extended with the two infinities
      and NaN.  Rounding, overflow to infinity, underflow and the sign of
      zero are outside this model.
    - Classes of [LibCMatrix.hpp] and [randFeature.hpp], which are not part
      of the sources at hand, are taken as parameters or modelled from the
      specification; each such definition says so. *)

From Stdlib Require Import ZArith QArith Qcanon Lia Lqa Ascii String.
From stdpp Require Import base option list numbers.

Local Open Scope Z_scope.

(** ** Machine integers *)

Module Machine.

(** Two's complement wrap-around on [w] bits. *)
Definition wrap (w z : Z) : Z := (z + 2 ^ (w - 1)) mod 2 ^ w - 2 ^ (w - 1).

Definition INT_MIN : Z := - 2 ^ 31.
Definition INT_MAX : Z := 2 ^ 31 - 1.
Definition LONG_MIN : Z := - 2 ^ 63.
Definition LONG_MAX : Z := 2 ^ 63 - 1.

Definition int_add (a b : Z) : Z := wrap 32 (a + b).
Definition int_sub (a b : Z) : Z := wrap 32 (a - b).
Definition int_of_long (a : Z) : Z := wrap 32 a.
Definition long_add (a b : Z) : Z := wrap 64 (a + b).
Definition long_mul (a b : Z) : Z := wrap 64 (a * b).

End Machine.
Import Machine.

(** ** C arrays *)

(** [a[i]] as an rvalue. *)
Definition rd {A} (a : list A) (i : Z) : option A :=
  if decide (0 <= i) then a !! Z.to_nat i else None.

(** [a[i] = v]. *)
Definition wr {A} (a : list A) (i : Z) (v : A) : option (list A) :=
  if decide (0 <= i < Z.of_nat (length a))
  then Some (<[Z.to_nat i := v]> a) else None.

(** [for (i = lo; ...; i++) body], run for [n] iterations from [i]. *)
Fixpoint for_range {S} (n : nat) (i : Z) (body : Z -> S -> option S) (s : S)
  : option S :=
  match n with
  | O => Some s
  | Datatypes.S n' => s' ← body i s; for_range n' (i + 1) body s'
  end.

(** ** Doubles *)

Inductive double : Type :=
| Fin (q : Qc)
| PInf
| NInf
| NaN.

#[global] Instance double_inhabited : Inhabited double := populate (Fin 0%Qc).

Definition of_long (z : Z) : double := Fin (Qc_of_Z z).

Definition qpos (q : Qc) : bool := bool_decide (0 < q)%Qc.
Definition qneg (q : Qc) : bool := bool_decide (q < 0)%Qc.

(** [x > y] *)
Definition dgt (x y : double) : bool :=
  match x, y with
  | NaN, _ | _, NaN => false
  | Fin a, Fin b => bool_decide (b < a)%Qc
  | PInf, PInf => false
  | PInf, _ => true
  | _, PInf => false
  | NInf, _ => false
  | Fin _, NInf => true
  end.

Definition dneg (x : double) : double :=
  match x with
  | Fin a => Fin (- a)%Qc
  | PInf => NInf
  | NInf => PInf
  | NaN => NaN
  end.

(** The infinity that carries the sign of the finite non-zero [a]. *)
Definition inf_of_sign (a : Qc) : double := if qpos a then PInf else NInf.

(** [x * y] *)
Definition dmul (x y : double) : double :=
  match x, y with
  | NaN, _ | _, NaN => NaN
  | Fin a, Fin b => Fin (a * b)%Qc
  | Fin a, PInf | PInf, Fin a =>
      if bool_decide (a = 0%Qc) then NaN else inf_of_sign a
  | Fin a, NInf | NInf, Fin a =>
      if bool_decide (a = 0%Qc) then NaN else dneg (inf_of_sign a)
  | PInf, PInf | NInf, NInf => PInf
  | PInf, NInf | NInf, PInf => NInf
  end.

(** [x + y] *)
Definition dadd (x y : double) : double :=
  match x, y with
  | NaN, _ | _, NaN => NaN
  | Fin a, Fin b => Fin (a + b)%Qc
  | PInf, NInf | NInf, PInf => NaN
  | PInf, _ | _, PInf => PInf
  | NInf, _ | _, NInf => NInf
  end.

(** [x / y] *)
Definition ddiv (x y : double) : double :=
  match x, y with
  | NaN, _ | _, NaN => NaN
  | Fin a, Fin b =>
      if bool_decide (b = 0%Qc)
      then (if bool_decide (a = 0%Qc) then NaN else inf_of_sign a)
      else Fin (a / b)%Qc
  | Fin _, (PInf | NInf) => Fin 0%Qc
  | (PInf | NInf), (PInf | NInf) => NaN
  | PInf, Fin b => if qneg b then NInf else PInf
  | NInf, Fin b => if qneg b then PInf else NInf
  end.

(** [(int) x]: truncation toward zero.  When the truncated value does not
    fit an [int] (or [x] is not finite) the C standard leaves the
    conversion undefined; the value taken here is the one the x86-64
    conversion instruction delivers, [INT_MIN]. *)
Definition to_int (x : double) : Z :=
  match x with
  | Fin q =>
      let t := Z.quot (Qnum q) (Zpos (Qden q)) in
      if decide (INT_MIN <= t <= INT_MAX) then t else INT_MIN
  | _ => INT_MIN
  end.

(** ** Vectors of pairs produced by the feature generator *)

(** [vector< vector< pair<int,double> > >] *)
Definition instances : Type := list (list (Z * double)).

(** The weight of the basic binary encoding. *)
Definition unit_weight : double := Fin 1%Qc.

(** A row whose feature ids never decrease from one pair to the next. *)
Fixpoint ascending (row : list (Z * double)) : bool :=
  match row with
  | p :: row' =>
      match row' with
      | q :: _ => (p.1 <=? q.1) && ascending row'
      | [] => true
      end
  | [] => true
  end.

(** ** The sparse point array of LibCMatrix *)

Record SPointArray : Type := mkSPointArray {
  SP_GetN : Z;
  SP_GetD : Z;
  SP_nnz : Z;
  GetPointerStart : list Z;
  GetPointerIdx : list Z;
  GetPointerX : list double
}.

Definition set_start (A : SPointArray) (s : list Z) : SPointArray :=
  mkSPointArray (SP_GetN A) (SP_GetD A) (SP_nnz A) s
    (GetPointerIdx A) (GetPointerX A).

Definition set_entry (A : SPointArray) (ix : list Z) (x : list double)
  : SPointArray :=
  mkSPointArray (SP_GetN A) (SP_GetD A) (SP_nnz A) (GetPointerStart A) ix x.

(** Modelled from the spec: [SPointArray::Init] belongs to LibCMatrix.hpp,
    which is not among the sources.  The specification gives the store
    row-start offsets of length [N+1] and a column-index array and a value
    array of length [nnz]; their initial content is taken to be zero. *)
Definition SPointArray_Init (N d nnz : Z) : SPointArray :=
  mkSPointArray N d nnz
    (replicate (Z.to_nat (N + 1)) 0)
    (replicate (Z.to_nat nnz) 0)
    (replicate (Z.to_nat nnz) (Fin 0%Qc)).

(** *** The identity preconditioner, [main] lines 245-256 *)

Definition EYE_body (i : Z) (E : SPointArray) : option SPointArray :=
  s ← wr (GetPointerStart E) i i;
  ix ← wr (GetPointerIdx E) i (int_of_long i);
  x ← wr (GetPointerX E) i (Fin 1%Qc);
  Some (set_entry (set_start E s) ix x).

Definition main_EYE (M : Z) : option SPointArray :=
  E ← for_range (Z.to_nat M) 0 EYE_body (SPointArray_Init M M M);
  s ← wr (GetPointerStart E) (Z.max 0 M) (long_add M 1);
  Some (set_start E s).

(** *** The joint feature store, [main] lines 192-214 *)

(** The loop that finds the column dimension: only the pair at position
    [r-1] of each row is read. *)
Fixpoint main_dd_loop (instances_new : instances) (r dd : Z) : option Z :=
  match instances_new with
  | [] => Some dd
  | row :: rest =>
      p ← rd row (int_sub r 1);
      main_dd_loop rest r (if decide (dd < p.1) then p.1 else dd)
  end.

Definition main_dd (instances_new : instances) (r : Z) : option Z :=
  main_dd_loop instances_new r 0.

(** What line 209 stores for a generated pair. *)
Definition stored_col (p : Z * double) : Z := int_sub p.1 1.

(** The inner loop over the pairs of one row. *)
Fixpoint main_fill_row (row : list (Z * double)) (ind : Z) (A : SPointArray)
  : option (Z * SPointArray) :=
  match row with
  | [] => Some (ind, A)
  | p :: row' =>
      ix ← wr (GetPointerIdx A) ind (stored_col p);
      x ← wr (GetPointerX A) ind p.2;
      main_fill_row row' (long_add ind 1) (set_entry A ix x)
  end.

(** The outer loop over the rows; [i] is the row counter. *)
Fixpoint main_fill_rows (rows : instances) (i r ind : Z) (A : SPointArray)
  : option (Z * Z * SPointArray) :=
  match rows with
  | [] => Some (i, ind, A)
  | row :: rows' =>
      s ← (if decide (i = 0) then wr (GetPointerStart A) i 0
           else prev ← rd (GetPointerStart A) (i - 1);
                wr (GetPointerStart A) i (long_add prev r));
      st ← main_fill_row row ind (set_start A s);
      main_fill_rows rows' (i + 1) r st.1 st.2
  end.

Definition main_fill (instances_new : instances) (r Xtrain_N Xtest_N dd : Z)
  : option SPointArray :=
  let N := long_add Xtrain_N Xtest_N in
  let nnz := long_mul r N in
  st ← main_fill_rows instances_new 0 r 0 (SPointArray_Init N dd nnz);
  s ← wr (GetPointerStart st.2) st.1.1 nnz;
  Some (set_start st.2 s).

(** ** The command line, [main] lines 80-99 *)

(** The values that [main] reads from [argv]. *)
Record Args : Type := mkArgs {
  NumThreads : Z;
  FileTrain : string;
  FileTest : string;
  NumClasses : Z;
  d : Z;
  r : Z;
  Num_lambda : Z;
  List_lambda : list double;
  Num_sigma : Z;
  List_sigma : list double;
  MAXIT : Z;
  TOL : double;
  verbose : bool
}.

(** A decimal reading of an optionally signed digit string, used where an
    example needs a concrete [atoi]. *)
Definition digit (c : Ascii.ascii) : option Z :=
  let n := Z.of_N (Ascii.N_of_ascii c) in
  if (48 <=? n) && (n <=? 57) then Some (n - 48) else None.

Fixpoint digits (s : string) (acc : Z) : Z :=
  match s with
  | String c s' =>
      match digit c with
      | Some v => digits s' (10 * acc + v)
      | None => acc
      end
  | EmptyString => acc
  end.

Definition decimal (s : string) : Z :=
  match s with
  | String "-"%char s' => - digits s' 0
  | String "+"%char s' => digits s' 0
  | _ => digits s 0
  end.

(** [idx] points at the arguments [rest] still unread. *)
Definition cursor (argv : list string) (idx : Z) (rest : list string) : Prop :=
  0 <= idx /\ drop (Z.to_nat idx) argv = rest.

Section CommandLine.

(** The two C library conversions. *)
Variable atoi : string -> Z.
Variable atof : string -> double.

(** [argv[idx++]]: the argument and the advanced counter.  Reading at or
    beyond [argc] hands a null or foreign pointer to the conversion. *)
Definition next_arg (argv : list string) (idx : Z) : option (string * Z) :=
  s ← rd argv idx; Some (s, long_add idx 1).

(** The loops at lines 89-91 and 94-96: [n] values read with [atof]. *)
Fixpoint read_doubles (argv : list string) (n : nat) (idx : Z)
  : option (list double * Z) :=
  match n with
  | O => Some ([], idx)
  | S n' =>
      a ← next_arg argv idx;
      rest ← read_doubles argv n' a.2;
      Some (atof a.1 :: rest.1, rest.2)
  end.

(** The parser; it returns the values read and the final [idx]. *)
Definition main_parse (argv : list string) : option (Args * Z) :=
  let idx := 1 in
  a1 ← next_arg argv idx;
  a2 ← next_arg argv a1.2;
  a3 ← next_arg argv a2.2;
  a4 ← next_arg argv a3.2;
  a5 ← next_arg argv a4.2;
  a6 ← next_arg argv a5.2;
  a7 ← next_arg argv a6.2;
  let Num_lambda := atoi a7.1 in
  ls ← read_doubles argv (Z.to_nat Num_lambda) a7.2;
  a8 ← next_arg argv ls.2;
  let Num_sigma := atoi a8.1 in
  ss ← read_doubles argv (Z.to_nat Num_sigma) a8.2;
  a9 ← next_arg argv ss.2;
  a10 ← next_arg argv a9.2;
  a11 ← next_arg argv a10.2;
  Some (mkArgs (atoi a1.1) a2.1 a3.1 (atoi a4.1) (atoi a5.1) (atoi a6.1)
          Num_lambda ls.1 Num_sigma ss.1
          (atoi a9.1) (atof a10.1) (negb (atoi a11.1 =? 0)),
        a11.2).

End CommandLine.

(** ** The hyperparameter sweep, [main] lines 141-303 *)

(** Modelled from the spec: [DPointArray] belongs to LibCMatrix.hpp, which
    is not among the sources.  It is the dense array of points that the
    dataset reader fills; [main] (lines 162 and 173) finds coordinate [j]
    of point [i] at [GetPointer()[j * GetN() + i]]. *)
Record DPointArray : Type := mkDPointArray {
  DP_GetN : Z;
  DP_GetPointer : list double
}.

(** [x != 0] *)
Definition dne0 (x : double) : bool :=
  match x with
  | Fin q => negb (bool_decide (q = 0%Qc))
  | _ => true
  end.

(** Lines 159-165 (and 170-176): the nonzero coordinates of point [i] with
    their 1-based indices. *)
Definition main_sparse_point (X : DPointArray) (d i : Z)
  : option (list (Z * double)) :=
  for_range (Z.to_nat d) 0
    (fun j row =>
       v ← rd (DP_GetPointer X) (long_add (long_mul j (DP_GetN X)) i);
       Some (if dne0 v then row ++ [(int_of_long (long_add j 1), v)] else row))
    [].

(** Lines 157-166 (and 168-177): one row is pushed for every point. *)
Definition main_sparse_points (X : DPointArray) (d : Z) (acc : instances)
  : option instances :=
  for_range (Z.to_nat (DP_GetN X)) 0
    (fun i acc => row ← main_sparse_point X d i; Some (acc ++ [row]))
    acc.

Definition main_instances_old (Xtrain Xtest : DPointArray) (d : Z)
  : option instances :=
  acc ← main_sparse_points Xtrain d [];
  main_sparse_points Xtest d acc.

(** Line 141. *)
Definition Seed : Z := 0.

Section Sweep.

(** The state of the generator behind [random()], and the state that
    [srandom] installs for a seed. *)
Variable rng : Type.
Variable srandom : Z -> rng.

(** [random_binning_feature] of randFeature.hpp, not among the sources:
    it maps the augmented dimension, the rank, the points and the
    bandwidth to the generated rows, drawing from the generator. *)
Variable random_binning_feature :
  Z -> Z -> instances -> double -> rng -> instances * rng.

(** Lines 190-301, from the construction of the store to the score of
    the combination; the solver and the matrix products belong to
    LibCMatrix.  The generator is threaded through, whether or not
    they draw from it. *)
Variable fit_and_score :
  Args -> double -> double -> instances -> rng -> double * rng.

(** What one combination of the sweep did: its hyperparameters, the
    state of the generator when feature generation began, the rows
    generated and the score printed at line 300. *)
Record sweep_point : Type := mkSweepPoint {
  pt_lambda : double;
  pt_sigma : double;
  pt_rng : rng;
  pt_features : instances;
  pt_perf : double
}.

(** The loop over [List_sigma], lines 146-302. *)
Fixpoint main_sigma_loop (a : Args) (Xtrain Xtest : DPointArray)
    (lambda : double) (sigmas : list double) (g : rng)
  : option (list sweep_point * rng) :=
  match sigmas with
  | [] => Some ([], g)
  | sigma :: sigmas' =>
      let g := srandom Seed in
      instances_old ← main_instances_old Xtrain Xtest (d a);
      let gen :=
        random_binning_feature (int_add (d a) 1) (r a) instances_old sigma g in
      let res := fit_and_score a lambda sigma gen.1 gen.2 in
      rest ← main_sigma_loop a Xtrain Xtest lambda sigmas' res.2;
      Some (mkSweepPoint lambda sigma g gen.1 res.1 :: rest.1, rest.2)
  end.

(** The loop over [List_lambda], lines 143-303. *)
Fixpoint main_lambda_loop (a : Args) (Xtrain Xtest : DPointArray)
    (lambdas : list double) (g : rng)
  : option (list sweep_point * rng) :=
  match lambdas with
  | [] => Some ([], g)
  | lambda :: lambdas' =>
      inner ← main_sigma_loop a Xtrain Xtest lambda (List_sigma a) g;
      rest ← main_lambda_loop a Xtrain Xtest lambdas' inner.2;
      Some (inner.1 ++ rest.1, rest.2)
  end.

(** The sweep started with the generator in state [g]. *)
Definition main_sweep (a : Args) (Xtrain Xtest : DPointArray) (g : rng)
  : option (list sweep_point) :=
  fst <$> main_lambda_loop a Xtrain Xtest (List_lambda a) g.

End Sweep.

(** A combination run on its own, straight after [srandom(Seed)]. *)
Definition sweep_point_alone {rng : Type} (srandom : Z -> rng)
    (random_binning_feature :
       Z -> Z -> instances -> double -> rng -> instances * rng)
    (fit_and_score : Args -> double -> double -> instances -> rng -> double * rng)
    (a : Args) (instances_old : instances) (lambda sigma : double)
  : sweep_point rng :=
  let g := srandom Seed in
  let gen :=
    random_binning_feature (int_add (d a) 1) (r a) instances_old sigma g in
  mkSweepPoint rng lambda sigma g gen.1
    (fit_and_score a lambda sigma gen.1 gen.2).1.

Arguments mkSweepPoint {rng}.
Arguments pt_lambda {rng}.
Arguments pt_sigma {rng}.
Arguments pt_rng {rng}.
Arguments pt_features {rng}.
Arguments pt_perf {rng}.

(** ** Dense vectors and matrices of LibCMatrix *)

Abbreviation DVector := (list double).

Definition DV_GetN (v : DVector) : Z := Z.of_nat (length v).

(** [v.GetPointer()[i]] for an index inside the vector. *)
Definition elt (v : DVector) (i : Z) : double := default NaN (rd v i).

(** Modelled from the spec: [DMatrix] belongs to LibCMatrix.hpp, which is
    not among the sources.  It is the [M] by [N] array of doubles of the
    specification's label and weight matrices; [GetM] is its number of
    rows and [GetN] its number of columns, [SetColumn] overwrites one
    column with a vector and [GetRow] copies one row out. *)
Record DMatrix : Type := mkDMatrix {
  DM_GetM : Z;
  DM_GetN : Z;
  DM_entry : Z -> Z -> double
}.

Definition DMatrix_Init (M N : Z) : DMatrix :=
  mkDMatrix M N (fun _ _ => Fin 0%Qc).

Definition SetColumn (A : DMatrix) (j : Z) (y : DVector) : DMatrix :=
  mkDMatrix (DM_GetM A) (DM_GetN A)
    (fun i' j' => if decide (j' = j) then elt y i' else DM_entry A i' j').

Definition GetRow (A : DMatrix) (i : Z) : DVector :=
  (fun j => DM_entry A i j) <$> seqZ 0 (DM_GetN A).

(** Modelled from the spec: [DVector::Max] belongs to LibCMatrix.hpp.  The
    specification resolves ties by the first maximum met, so the scan
    moves on only at a strictly larger entry; on an empty vector the index
    is left as it was. *)
Fixpoint Max_scan (row : list double) (j : Z) (best : double) (idx : Z) : Z :=
  match row with
  | [] => idx
  | x :: row' =>
      if dgt x best then Max_scan row' (j + 1) x j
      else Max_scan row' (j + 1) best idx
  end.

(** [row.Max(idx)]: the value of [idx] after the call. *)
Definition DVector_Max (row : DVector) (idx : Z) : Z :=
  match row with
  | [] => idx
  | x :: row' => Max_scan row' 1 x 0
  end.

(** ** [ConvertYtrain], lines 377-388 *)

(** The inner loop, lines 383-385, for class [i]. *)
Definition recode (i : Z) (y : DVector) : DVector :=
  (fun v => if decide (to_int v = i) then Fin 1%Qc else Fin (-1)%Qc) <$> y.

Definition ConvertYtrain (ytrain : DVector) (NumClasses : Z) : DMatrix :=
  foldl (fun Ytrain i => SetColumn Ytrain i (recode i ytrain))
    (DMatrix_Init (DV_GetN ytrain) NumClasses)
    (seqZ 0 NumClasses).

(** ** [Performance], lines 392-459 *)

(** The loops [perf += test(i) ? 1.0 : 0.0] over [0 <= i < n]. *)
Definition tally (test : Z -> bool) (n : Z) : double :=
  foldl (fun perf i => dadd perf (if test i then Fin 1%Qc else Fin 0%Qc))
    (Fin 0%Qc) (seqZ 0 n).

(** The test of line 415. *)
Definition sign_test (ytest_truth ytest_predict : DVector) (i : Z) : bool :=
  dgt (dmul (elt ytest_truth i) (elt ytest_predict i)) (Fin 0%Qc).

(** What a scorer leaves behind: the lines printed and the value returned. *)
Definition scored : Type := list string * double.

Section Scorers.

(** [DVector::Subtract] and [DVector::Norm2] of LibCMatrix. *)
Variable Subtract : DVector -> DVector -> DVector.
Variable Norm2 : DVector -> double.

(** The scorer for regression and binary classification. *)
Definition Performance (ytest_truth ytest_predict : DVector)
    (NumClasses : Z) : scored :=
  let n := DV_GetN ytest_truth in
  if decide (n <> DV_GetN ytest_predict) then
    (["Performance. Error: Vector lengths mismatch. Return NAN"%string], NaN)
  else if decide (NumClasses <> 1 /\ NumClasses <> 2) then
    (["Performance. Error: Neither regression nor binary classification. Return NAN"%string],
     NaN)
  else if decide (NumClasses = 1) then
    ([], ddiv (Norm2 (Subtract ytest_truth ytest_predict)) (Norm2 ytest_truth))
  else
    ([], dmul (ddiv (tally (sign_test ytest_truth ytest_predict) n) (of_long n))
           (Fin (Qc_of_Z 100))).

End Scorers.

(** Lines 440-448: the class predicted for every row. *)
Definition predicted (Ytest_predict : DMatrix) (n : Z) : DVector :=
  (fun i => of_long (DVector_Max (GetRow Ytest_predict i) (-1))) <$> seqZ 0 n.

(** The test of line 454. *)
Definition class_test (y1 y2 : DVector) (i : Z) : bool :=
  bool_decide (to_int (elt y1 i) = to_int (elt y2 i)).

(** The scorer for multiclass classification. *)
Definition Performance_DMatrix (ytest_truth : DVector) (Ytest_predict : DMatrix)
    (NumClasses : Z) : scored :=
  let n := DV_GetN ytest_truth in
  if decide (n <> DM_GetM Ytest_predict \/ DM_GetN Ytest_predict <> NumClasses)
  then (["Performance. Error: Size mismatch. Return NAN"%string], NaN)
  else if decide (NumClasses <= 2) then
    (["Performance. Error: Not multiclass classification. Return NAN"%string],
     NaN)
  else
    let ytest_predict := predicted Ytest_predict n in
    ([], dmul (ddiv (tally (class_test ytest_truth ytest_predict) n) (of_long n))
           (Fin (Qc_of_Z 100))).

(** ** The quantities the scorers are specified with *)

Definition is_positive (x : double) : bool := dgt x (Fin 0%Qc).
Definition is_negative (x : double) : bool := dgt (Fin 0%Qc) x.

(** Both strictly positive or both strictly negative; zero and NaN have no
    sign. *)
Definition same_sign (x y : double) : bool :=
  is_positive x && is_positive y || is_negative x && is_negative y.

(** The number of indices [0 <= i < n] that pass [test]. *)
Definition count_true (test : Z -> bool) (n : Z) : Z :=
  Z.of_nat (length (filter (fun i => Is_true (test i)) (seqZ 0 n))).

(** [100] times the fraction [c / n]. *)
Definition percentage (c n : Z) : Qc :=
  (Qc_of_Z 100 * (Qc_of_Z c / Qc_of_Z n))%Qc.

(** The class the multiclass scorer predicts for row [i]. *)
Definition predicted_class (Ytest_predict : DMatrix) (i : Z) : Z :=
  DVector_Max (GetRow Ytest_predict i) (-1).

(** ** Data of the scenarios *)

(** The double nearest to the decimal [a / b], taken as that rational. *)
Definition dec (a : Z) (b : positive) : double := Fin (Q2Qc (a # b)).


(** Truth [0, 1, 0, 1] for four rows of scores. *)
Definition multiclass_truth : DVector := [dec 0 1; dec 1 1; dec 0 1; dec 1 1].

(** Four rows of scores over three classes; the largest scores sit in the
    columns 0, 1 (tied with 2), 1 (tied with 2) and 1. *)
Definition multiclass_scores : DMatrix :=
  mkDMatrix 4 3
    (fun i j =>
       default NaN
         (row ← rd [[dec 3 1; dec 1 1; dec 0 1];
                    [dec 1 1; dec 2 1; dec 2 1];
                    [dec 0 1; dec 5 1; dec 5 1];
                    [dec (-1) 1; dec 0 1; dec (-2) 1]] i;
          rd row j)).

(** A small sweep: two regularizations and one bandwidth over one training
    and one testing point of dimension 2, with a generator whose state is
    a counter. *)
Definition toy_Args : Args :=
  mkArgs 1 "train" "test" 2 2 1 2 [dec 1 1; dec 10 1] 1 [dec 5 1] 100
    (dec 1 1000) false.

Definition toy_Xtrain : DPointArray := mkDPointArray 1 [dec 1 1; dec 0 1].
Definition toy_Xtest : DPointArray := mkDPointArray 1 [dec 0 1; dec 2 1].

Definition toy_srandom (seed : Z) : Z := seed.

Definition toy_random_binning_feature (D r : Z) (points : instances)
    (sigma : double) (g : Z) : instances * Z :=
  ((fun _ => [(g + 1, unit_weight)]) <$> points, g + 1).

Definition toy_fit_and_score (a : Args) (lambda sigma : double)
    (features : instances) (g : Z) : double * Z :=
  (lambda, g + 7).

From stdpp Require Import sorting.

Local Open Scope Z_scope.

(** ** Further quantities used in the properties *)

(** A dense array that holds [d] coordinates for each of its points. *)
Definition well_sized (X : DPointArray) (d : Z) : Prop :=
  0 <= DP_GetN X /\
  Z.of_nat (length (DP_GetPointer X)) = DP_GetN X * d /\
  DP_GetN X * d <= LONG_MAX.

(** Coordinate [j] (0-based) of point [i]. *)
Definition coordinate (X : DPointArray) (i j : Z) : option double :=
  rd (DP_GetPointer X) (j * DP_GetN X + i).

(** What the loop of lines 159-165 has gathered when it reaches
    coordinate [j]. *)
Definition gathered (X : DPointArray) (i j : Z) (row : list (Z * double))
  : Prop :=
  StronglySorted Z.lt (row.*1) /\
  (forall p, p ∈ row ->
     1 <= p.1 <= j /\ dne0 p.2 = true /\ coordinate X i (p.1 - 1) = Some p.2) /\
  (forall j' v, 0 <= j' < j -> coordinate X i j' = Some v -> dne0 v = true ->
     (j' + 1, v) ∈ row).

(** ** The random number routines, lines 314-373 *)

Definition int_mul (a b : Z) : Z := wrap 32 (a * b).

(** [TWO_PI], line 48. *)
Definition TWO_PI : double :=
  Fin (Q2Qc (628318530717958647692 # 100000000000000000000)).

(** [fabs] *)
Definition dabs (x : double) : double :=
  match x with
  | Fin a => Fin (if qneg a then (- a)%Qc else a)
  | PInf | NInf => PInf
  | NaN => NaN
  end.

Section RandomNumbers.

(** The generator behind [random()]: the value drawn and the next state. *)
Variable rng : Type.
Variable random : rng -> Z * rng.

(** [RAND_MAX] of stdlib.h, [M_PI] and the functions of math.h. *)
Variable RAND_MAX : Z.
Variable M_PI : double.
Variables sqrt log cos sin tan : double -> double.

(** The state of the generator after [k] draws. *)
Definition draws (k : nat) (g : rng) : rng :=
Nat.iter k (fun g => (random g).2) g.

(** [(double)random()/RAND_MAX] for a drawn value [x]. *)
Definition uniform (x : Z) : double := ddiv (of_long x) (of_long RAND_MAX).

Definition UniformRandom01 (a : list double) (n : Z) (g : rng)
: option (list double * rng) :=
for_range (Z.to_nat n) 0
  (fun i st =>
     let x := random st.2 in
     a' ← wr st.1 i (uniform x.1);
     Some (a', x.2))
  (a, g).

(** The two draws [U], [V] of the Box-Muller transform with [common1],
  [common2] and the state they leave. *)
Definition box_muller (g : rng) : double * double * rng :=
let u := random g in
let v := random u.2 in
(sqrt (dmul (Fin (Qc_of_Z (-2))) (log (uniform u.1))),
 dmul TWO_PI (uniform v.1),
 v.2).

Definition StandardNormal (a : list double) (n : Z) (g : rng)
: option (list double * rng) :=
st ← for_range (Z.to_nat (Z.quot n 2)) 0
       (fun i st =>
          let c := box_muller st.2 in
          a1 ← wr st.1 (int_mul 2 i) (dmul c.1.1 (cos c.1.2));
          a2 ← wr a1 (int_add (int_mul 2 i) 1) (dmul c.1.1 (sin c.1.2));
          Some (a2, c.2))
       (a, g);
if decide (Z.rem n 2 = 1) then
  let c := box_muller st.2 in
  a1 ← wr st.1 (int_sub n 1) (dmul c.1.1 (cos c.1.2));
  Some (a1, c.2)
else Some st.

Definition StudentT1 (a : list double) (n : Z) (g : rng)
: option (list double * rng) :=
for_range (Z.to_nat n) 0
  (fun i st =>
     let v := random st.2 in
     let V := uniform v.1 in
     a1 ← wr st.1 i (tan (dmul (dmul (Fin (Qc_of_Z 2)) M_PI) V));
     a2 ← (if dgt V (Fin (Q2Qc (1 # 2)))
           then x ← rd a1 i; wr a1 i (dneg x)
           else Some a1);
     Some (a2, v.2))
  (a, g).

Definition MultivariateStudentT1 (a : list double) (n : Z) (g : rng)
: option (list double * rng) :=
st ← StandardNormal a n g;
sb ← StandardNormal [Fin 0%Qc] 1 st.2;
b0 ← rd sb.1 0;
let b := dabs b0 in
a' ← for_range (Z.to_nat n) 0
       (fun i a => x ← rd a i; wr a i (ddiv x b))
       st.1;
Some (a', sb.2).

End RandomNumbers.

(** A generator for the examples: a counter that returns its state. *)
Definition toy_random (g : Z) : Z * Z := (g mod 8, g + 1).

(** * Properties *)

(** ** Wrap-around *)

Lemma wrap32_id z : INT_MIN <= z <= INT_MAX -> wrap 32 z = z.
Proof.
  unfold wrap, INT_MIN, INT_MAX. intros H.
  rewrite Z.mod_small; lia.
Qed.

Lemma wrap64_id z : LONG_MIN <= z <= LONG_MAX -> wrap 64 z = z.
Proof.
  unfold wrap, LONG_MIN, LONG_MAX. intros H.
  rewrite Z.mod_small; lia.
Qed.

(** ** Reads and writes *)

Section arrays.
Context {A : Type}.
Implicit Types (a : list A) (i k : Z) (v : A).

Lemma wr_Some a i v :
  0 <= i < Z.of_nat (length a) -> wr a i v = Some (<[Z.to_nat i := v]> a).
Proof. intros H. unfold wr. by rewrite decide_True. Qed.

Lemma rd_insert a i v k :
  0 <= i < Z.of_nat (length a) ->
  rd (<[Z.to_nat i := v]> a) k = if decide (k = i) then Some v else rd a k.
Proof.
  intros Hi. unfold rd. destruct (decide (k = i)) as [->|Hne].
  - rewrite decide_True by lia. apply list_lookup_insert_eq. lia.
  - destruct (decide (0 <= k)); [|done]. apply list_lookup_insert_ne. lia.
Qed.

Lemma rd_Some_lt a k v : rd a k = Some v -> 0 <= k < Z.of_nat (length a).
Proof.
  unfold rd. destruct (decide (0 <= k)); [|done].
  intros H%lookup_lt_Some. lia.
Qed.

Lemma rd_ext a b :
  length a = length b ->
  (forall k, 0 <= k < Z.of_nat (length a) -> rd a k = rd b k) -> a = b.
Proof.
  intros Hlen H. apply list_eq. intros n.
  destruct (decide (n < length a)%nat) as [Hn|Hn].
  - specialize (H (Z.of_nat n)). unfold rd in H.
    rewrite !decide_True, Nat2Z.id in H by lia. apply H. lia.
  - rewrite !lookup_ge_None_2; [done | lia | lia].
Qed.
Lemma rd_cons x a k :
  rd (x :: a) k = if decide (k = 0) then Some x else rd a (k - 1).
Proof.
  unfold rd. destruct (decide (k = 0)) as [->|Hk]; [done|].
  destruct (decide (0 <= k)).
  - rewrite decide_True by lia.
    replace (Z.to_nat k) with (S (Z.to_nat (k - 1))) by lia. done.
  - by rewrite decide_False by lia.
Qed.

Lemma rd_app a b k :
  rd (a ++ b) k =
    if decide (k < Z.of_nat (length a)) then rd a k
    else rd b (k - Z.of_nat (length a)).
Proof.
  unfold rd. destruct (decide (0 <= k)).
  - case_decide.
    + apply lookup_app_l. lia.
    + rewrite decide_True by lia. rewrite lookup_app_r by lia.
      f_equal. lia.
  - case_decide; [done|]. by rewrite decide_False by lia.
Qed.

Lemma rd_neg a k : k < 0 -> rd a k = None.
Proof. intros H. unfold rd. by rewrite decide_False by lia. Qed.

Lemma rd_ge a k : Z.of_nat (length a) <= k -> rd a k = None.
Proof.
  intros H. unfold rd. case_decide; [|done].
  apply lookup_ge_None_2. lia.
Qed.

Lemma rd_is_Some a k : 0 <= k < Z.of_nat (length a) -> is_Some (rd a k).
Proof.
  intros H. unfold rd. rewrite decide_True by lia.
  apply lookup_lt_is_Some_2. lia.
Qed.
End arrays.

Lemma EYE_body_Some (i : Z) (E : SPointArray) :
  0 <= i < Z.of_nat (length (GetPointerStart E)) ->
  0 <= i < Z.of_nat (length (GetPointerIdx E)) ->
  0 <= i < Z.of_nat (length (GetPointerX E)) ->
  EYE_body i E =
    Some (set_entry (set_start E (<[Z.to_nat i := i]> (GetPointerStart E)))
            (<[Z.to_nat i := int_of_long i]> (GetPointerIdx E))
            (<[Z.to_nat i := Fin 1%Qc]> (GetPointerX E))).
Proof.
  intros Hs Hx HX. unfold EYE_body.
  by rewrite !wr_Some.
Qed.

Lemma EYE_loop_spec (n : nat) : forall (i : Z) (E : SPointArray),
  0 <= i ->
  i + Z.of_nat n <= Z.of_nat (length (GetPointerStart E)) ->
  i + Z.of_nat n <= Z.of_nat (length (GetPointerIdx E)) ->
  i + Z.of_nat n <= Z.of_nat (length (GetPointerX E)) ->
  exists E',
    for_range n i EYE_body E = Some E' /\
    (SP_GetN E', SP_GetD E', SP_nnz E') = (SP_GetN E, SP_GetD E, SP_nnz E) /\
    length (GetPointerStart E') = length (GetPointerStart E) /\
    length (GetPointerIdx E') = length (GetPointerIdx E) /\
    (forall k, rd (GetPointerStart E') k =
       if decide (i <= k < i + Z.of_nat n) then Some k
       else rd (GetPointerStart E) k) /\
    (forall k, rd (GetPointerIdx E') k =
       if decide (i <= k < i + Z.of_nat n) then Some (int_of_long k)
       else rd (GetPointerIdx E) k) /\
    (forall k, rd (GetPointerX E') k =
       if decide (i <= k < i + Z.of_nat n) then Some (Fin 1%Qc)
       else rd (GetPointerX E) k).
Proof.
  induction n as [|n IH]; intros i E Hi Hs Hx HX.
  - exists E. simpl. repeat split; try done;
      intros k; by rewrite decide_False by lia.
  - cbn [for_range]. rewrite EYE_body_Some by lia. cbn [mbind option_bind].
    edestruct (IH (i + 1)) as (E' & -> & Hn & Hl & Hlx & Hst & Hix & HXv);
      [| | | | exists E'; repeat split].
    1-4: simpl; rewrite ?length_insert; lia.
    + by rewrite Hn.
    + by rewrite Hl; simpl; rewrite length_insert.
    + by rewrite Hlx; simpl; rewrite length_insert.
    + intros k. rewrite Hst. simpl. rewrite rd_insert by lia.
      repeat case_decide; subst; try done; lia.
    + intros k. rewrite Hix. simpl. rewrite rd_insert by lia.
      repeat case_decide; subst; try done; lia.
    + intros k. rewrite HXv. simpl. rewrite rd_insert by lia.
      repeat case_decide; subst; try done; lia.
Qed.


Lemma main_fill_row_spec (row : list (Z * double)) :
  forall (ind : Z) (A : SPointArray),
  0 <= ind ->
  ind + Z.of_nat (length row) <= Z.of_nat (length (GetPointerIdx A)) ->
  ind + Z.of_nat (length row) <= Z.of_nat (length (GetPointerX A)) ->
  ind + Z.of_nat (length row) <= LONG_MAX ->
  exists A',
    main_fill_row row ind A = Some (ind + Z.of_nat (length row), A') /\
    (SP_GetN A', SP_GetD A', SP_nnz A') = (SP_GetN A, SP_GetD A, SP_nnz A) /\
    GetPointerStart A' = GetPointerStart A /\
    length (GetPointerIdx A') = length (GetPointerIdx A) /\
    length (GetPointerX A') = length (GetPointerX A) /\
    (forall k, rd (GetPointerIdx A') k =
       if decide (ind <= k < ind + Z.of_nat (length row))
       then stored_col <$> rd row (k - ind)
       else rd (GetPointerIdx A) k) /\
    (forall k, rd (GetPointerX A') k =
       if decide (ind <= k < ind + Z.of_nat (length row))
       then snd <$> rd row (k - ind)
       else rd (GetPointerX A) k).
Proof.
  induction row as [|p row IH]; intros ind A Hind Hx HX Hmax.
  - exists A. cbn [main_fill_row length]. rewrite Z.add_0_r.
    repeat split; try done; intros k; by rewrite decide_False by lia.
  - cbn [main_fill_row length] in *.
    rewrite !wr_Some by lia. cbn [mbind option_bind].
    assert (long_add ind 1 = ind + 1) as ->.
    { apply wrap64_id. unfold LONG_MIN, LONG_MAX in *. lia. }
    edestruct (IH (ind + 1)) as (A' & -> & Hn & Hst & Hlx & HlX & Hix & HXv);
      [| | | | exists A'; repeat split].
    1-4: cbn; rewrite ?length_insert; lia.
    + f_equal. f_equal. lia.
    + by rewrite Hn.
    + by rewrite Hst.
    + by rewrite Hlx; cbn; rewrite length_insert.
    + by rewrite HlX; cbn; rewrite length_insert.
    + intros k. rewrite Hix. cbn. rewrite rd_insert, rd_cons by lia.
      repeat case_decide; subst; try lia; try done; do 2 f_equal; lia.
    + intros k. rewrite HXv. cbn. rewrite rd_insert, rd_cons by lia.
      repeat case_decide; subst; try lia; try done; do 2 f_equal; lia.
Qed.

Lemma main_fill_rows_spec (r : Z) (rows : instances) :
  forall (i ind : Z) (A : SPointArray),
  Forall (fun row => Z.of_nat (length row) = r) rows ->
  0 <= i -> 0 <= ind ->
  i + Z.of_nat (length rows) <= Z.of_nat (length (GetPointerStart A)) ->
  ind + r * Z.of_nat (length rows) <= Z.of_nat (length (GetPointerIdx A)) ->
  ind + r * Z.of_nat (length rows) <= Z.of_nat (length (GetPointerX A)) ->
  ind + r * Z.of_nat (length rows) <= LONG_MAX ->
  r * (i + Z.of_nat (length rows)) <= LONG_MAX ->
  (i <> 0 -> rd (GetPointerStart A) (i - 1) = Some ((i - 1) * r)) ->
  exists A',
    main_fill_rows rows i r ind A =
      Some (i + Z.of_nat (length rows), ind + r * Z.of_nat (length rows), A') /\
    (SP_GetN A', SP_GetD A', SP_nnz A') = (SP_GetN A, SP_GetD A, SP_nnz A) /\
    length (GetPointerStart A') = length (GetPointerStart A) /\
    length (GetPointerIdx A') = length (GetPointerIdx A) /\
    length (GetPointerX A') = length (GetPointerX A) /\
    (forall k, rd (GetPointerStart A') k =
       if decide (i <= k < i + Z.of_nat (length rows)) then Some (k * r)
       else rd (GetPointerStart A) k) /\
    (forall k, rd (GetPointerIdx A') k =
       if decide (ind <= k < ind + r * Z.of_nat (length rows))
       then stored_col <$> rd (concat rows) (k - ind)
       else rd (GetPointerIdx A) k) /\
    (forall k, rd (GetPointerX A') k =
       if decide (ind <= k < ind + r * Z.of_nat (length rows))
       then snd <$> rd (concat rows) (k - ind)
       else rd (GetPointerX A) k).
Proof.
  induction rows as [|row rows IH];
    intros i ind A Hrows Hi Hind Hs Hx HX Hmax Hir Hprev.
  - exists A. cbn [main_fill_rows length].
    rewrite Z.mul_0_r, !Z.add_0_r.
    repeat split; try done; intros k; by rewrite decide_False by lia.
  - apply list.Forall_cons in Hrows as [Hrow Hrows].
    cbn [main_fill_rows length] in *.
    assert (0 <= r) as Hr by lia.
    assert (exists s, (if decide (i = 0) then wr (GetPointerStart A) i 0
              else prev ← rd (GetPointerStart A) (i - 1);
                   wr (GetPointerStart A) i (long_add prev r)) = Some s /\
              s = <[Z.to_nat i := i * r]> (GetPointerStart A))
      as (s & -> & Hs').
    { case_decide as Hi0.
      - subst i. rewrite wr_Some by lia. eauto.
      - rewrite Hprev by done. cbn [mbind option_bind].
        rewrite wr_Some by lia. eexists; split; [done|].
        do 2 f_equal. unfold long_add. rewrite wrap64_id.
        + lia.
        + unfold LONG_MIN, LONG_MAX in *. nia. }
    cbn [mbind option_bind].
    edestruct (main_fill_row_spec row ind (set_start A s))
      as (A1 & -> & Hn1 & Hst1 & Hlx1 & HlX1 & Hix1 & HXv1).
    1-4: cbn; nia.
    cbn [mbind option_bind fst snd].
    cbn in Hn1, Hst1, Hlx1, HlX1.
    edestruct (IH (i + 1) (ind + Z.of_nat (length row)) A1)
      as (A' & -> & Hn & Hls & Hlx & HlX & Hst & Hix & HXv);
      [done | | | | | | | | | exists A'; repeat split].
    1-7: rewrite ?Hst1, ?Hlx1, ?HlX1, ?Hs', ?length_insert; nia.
    + intros _. rewrite Hst1, Hs', rd_insert by lia.
      rewrite decide_True by lia. f_equal. lia.
    + do 3 f_equal; nia.
    + by rewrite Hn, Hn1.
    + by rewrite Hls, Hst1, Hs', length_insert.
    + by rewrite Hlx, Hlx1.
    + by rewrite HlX, HlX1.
    + intros k. rewrite Hst, Hst1, Hs', rd_insert by lia.
      repeat case_decide; subst; try lia; done.
    + intros k. rewrite Hix, Hix1. cbn. rewrite rd_app.
      repeat case_decide; try nia; try done; do 2 f_equal; lia.
    + intros k. rewrite HXv, HXv1. cbn. rewrite rd_app.
      repeat case_decide; try nia; try done; do 2 f_equal; lia.
Qed.

Lemma rd_fmap {A B} (f : A -> B) (a : list A) (k : Z) :
  rd (f <$> a) k = f <$> rd a k.
Proof. unfold rd. case_decide; [apply list_lookup_fmap | done]. Qed.

Lemma concat_length_const (r : Z) (rows : instances) :
  Forall (fun row => Z.of_nat (length row) = r) rows ->
  Z.of_nat (length (concat rows)) = r * Z.of_nat (length rows).
Proof.
  induction 1 as [|row rows Hrow _ IH]; cbn [concat length]; [lia|].
  rewrite length_app. lia.
Qed.

(** The whole of lines 198-214 on rows of [r] pairs each. *)
Lemma main_fill_spec (instances_new : instances) (r Xtrain_N Xtest_N dd : Z) :
  Z.of_nat (length instances_new) = long_add Xtrain_N Xtest_N ->
  Forall (fun row => Z.of_nat (length row) = r) instances_new ->
  r * Z.of_nat (length instances_new) <= LONG_MAX ->
  exists S,
    main_fill instances_new r Xtrain_N Xtest_N dd = Some S /\
    SP_GetN S = Z.of_nat (length instances_new) /\
    SP_GetD S = dd /\
    SP_nnz S = r * Z.of_nat (length instances_new) /\
    (forall i, 0 <= i <= Z.of_nat (length instances_new) ->
       rd (GetPointerStart S) i = Some (i * r)) /\
    GetPointerIdx S = stored_col <$> concat instances_new /\
    GetPointerX S = snd <$> concat instances_new.
Proof.
  intros HN Hrows Hfit. unfold main_fill. rewrite <- HN.
  set (N := Z.of_nat (length instances_new)) in *.
  assert (0 <= r * N) as Hnn.
  { destruct Hrows as [|row rows Hrow _]; [subst N; cbn; lia|].
    subst N. cbn [length]. nia. }
  assert (long_mul r N = r * N) as ->.
  { apply wrap64_id. unfold LONG_MIN, LONG_MAX in *. lia. }
  edestruct (main_fill_rows_spec r instances_new 0 0
               (SPointArray_Init N dd (r * N)))
    as (A & -> & Hn & Hls & Hlx & HlX & Hst & Hix & HXv);
    [done | done | done | | | | | | done | ].
  1-5: cbn; rewrite ?length_replicate; fold N; nia.
  cbn [mbind option_bind fst snd].
  cbn [SPointArray_Init GetPointerStart GetPointerIdx GetPointerX
       SP_GetN SP_GetD SP_nnz] in Hn, Hls, Hlx, HlX, Hst, Hix, HXv.
  rewrite length_replicate in Hls. rewrite length_replicate in Hlx.
  rewrite length_replicate in HlX. fold N in Hst, Hix, HXv.
  rewrite Z.add_0_l. rewrite wr_Some by lia. cbn [mbind option_bind].
  eexists; split; [done|]. cbn.
  injection Hn as HN' Hd Hnnz.
  repeat split; try done.
  - intros i Hi. rewrite rd_insert by lia. case_decide as Hi'.
    + subst i. f_equal. lia.
    + rewrite Hst. by rewrite decide_True by lia.
  - apply rd_ext.
    + rewrite length_fmap.
      pose proof (concat_length_const r instances_new Hrows). fold N in H. lia.
    + intros k Hk. rewrite Hix, rd_fmap.
      rewrite decide_True by lia. by rewrite Z.sub_0_r.
  - apply rd_ext.
    + rewrite length_fmap.
      pose proof (concat_length_const r instances_new Hrows). fold N in H. lia.
    + intros k Hk. rewrite HXv, rd_fmap.
      rewrite decide_True by lia. by rewrite Z.sub_0_r.
Qed.

(** C2. After the population loop of [main] (lines 198-214), when the
    generator delivered one row per point and every row holds exactly [r]
    pairs, the joint store is a well-formed row-compressed matrix: two
    consecutive row offsets differ by [r], the offsets never decrease, and
    the last one, [mystart[N]], is [nnz = r * N], which is also the number
    of column indices and of values stored. *)
Theorem feature_store_row_offsets
    (instances_new : instances) (r Xtrain_N Xtest_N dd : Z) :
  let N := long_add Xtrain_N Xtest_N in
  Z.of_nat (length instances_new) = N ->
  Forall (fun row => Z.of_nat (length row) = r) instances_new ->
  r * N <= LONG_MAX ->
  exists S,
    main_fill instances_new r Xtrain_N Xtest_N dd = Some S /\
    (forall i, 0 <= i < N ->
       exists a b, rd (GetPointerStart S) i = Some a /\
                   rd (GetPointerStart S) (i + 1) = Some b /\ b - a = r) /\
    (forall i j a b, 0 <= i <= j -> j <= N ->
       rd (GetPointerStart S) i = Some a ->
       rd (GetPointerStart S) j = Some b -> a <= b) /\
    rd (GetPointerStart S) N = Some (SP_nnz S) /\
    SP_nnz S = r * N /\
    Z.of_nat (length (GetPointerIdx S)) = SP_nnz S /\
    Z.of_nat (length (GetPointerX S)) = SP_nnz S.
Proof.
  intros N HN Hrows Hfit. subst N. rewrite <- HN in *.
  destruct (main_fill_spec instances_new r Xtrain_N Xtest_N dd HN Hrows Hfit)
    as (S & HS & _ & _ & Hnnz & Hst & Hix & HXv).
  pose proof (concat_length_const r instances_new Hrows) as Hlen.
  exists S. split; [done|]. repeat split.
  - intros i Hi. exists (i * r), ((i + 1) * r).
    rewrite (Hst i), (Hst (i + 1)) by lia. repeat split. ring.
  - intros i j a b Hij HjN. rewrite (Hst i), (Hst j) by lia.
    intros [= <-] [= <-].
    destruct (decide (i = j)) as [->|Hne]; [lia|].
    assert (0 <= r); [|nia].
    destruct Hrows as [|row rows Hrow _]; [cbn in HjN|]; lia.
  - rewrite Hst by lia. f_equal. lia.
  - done.
  - rewrite Hix, length_fmap. lia.
  - rewrite HXv, length_fmap. lia.
Qed.


Lemma feature_store_row_offsets_witness :
  exists S,
    main_fill [[(1, unit_weight); (5, unit_weight)];
               [(2, unit_weight); (4, unit_weight)]] 2 1 1 5 = Some S /\
    rd (GetPointerStart S) 2 = Some 4.
Proof.
  destruct (feature_store_row_offsets
              [[(1, unit_weight); (5, unit_weight)];
               [(2, unit_weight); (4, unit_weight)]] 2 1 1 5)
    as (S & HS & _ & _ & Hlast & Hnnz & _).
  - reflexivity.
  - repeat constructor.
  - vm_compute. discriminate.
  - exists S. split; [exact HS|]. rewrite Hnnz in Hlast. exact Hlast.
Defined.

Lemma ascending_last (row : list (Z * double)) (q : Z * double) :
  ascending row = true -> list.last row = Some q ->
  forall p, p ∈ row -> p.1 <= q.1.
Proof.
  induction row as [|a row IH]; [done|].
  destruct row as [|b row].
  - intros _ [= ->] p Hp. apply list_elem_of_singleton in Hp as ->. lia.
  - cbn [ascending]. intros [Hab Hasc]%andb_prop Hlast p Hp.
    change (list.last (a :: b :: row)) with (list.last (b :: row)) in Hlast.
    specialize (IH Hasc Hlast).
    apply elem_of_cons in Hp as [->|Hp]; [|by apply IH].
    assert (b.1 <= q.1) by (apply IH; left).
    lia.
Qed.

Lemma rd_last {A} (row : list A) :
  rd row (Z.of_nat (length row) - 1) = list.last row.
Proof.
  destruct row as [|a row]; [done|].
  unfold rd. rewrite decide_True by (cbn [length]; lia).
  rewrite last_lookup. f_equal. cbn [length]. lia.
Qed.

Lemma elem_of_concat {A} (x : A) (ls : list (list A)) :
  x ∈ concat ls <-> exists l, x ∈ l /\ l ∈ ls.
Proof.
  induction ls as [|l ls IH]; cbn [concat].
  - split; [by intros ?%elem_of_nil | by intros (? & _ & ?%elem_of_nil)].
  - rewrite elem_of_app, IH. split.
    + intros [H|(l' & H & Hl')]; [exists l | exists l']; split; try done.
      * by left.
      * by right.
    + intros (l' & H & [->|Hl']%elem_of_cons); [by left | right; eauto].
Qed.

Lemma main_dd_loop_spec (r : Z) (rows : instances) : forall dd0 : Z,
  1 <= r <= INT_MAX ->
  Forall (fun row => Z.of_nat (length row) = r) rows ->
  Forall (fun row => ascending row = true) rows ->
  exists dd,
    main_dd_loop rows r dd0 = Some dd /\
    dd0 <= dd /\
    (forall p, p ∈ concat rows -> p.1 <= dd) /\
    (dd = dd0 \/ exists p, p ∈ concat rows /\ p.1 = dd).
Proof.
  intros dd0 Hr Hlen. revert dd0.
  induction Hlen as [|row rows Hrow _ IH]; intros dd0 Hasc.
  - exists dd0. cbn. repeat split; [lia | | by left].
    intros p Hp. by apply elem_of_nil in Hp.
  - apply list.Forall_cons in Hasc as [Hasc Hascs].
    cbn [main_dd_loop].
    assert (int_sub r 1 = Z.of_nat (length row) - 1) as ->.
    { unfold int_sub. rewrite wrap32_id; unfold INT_MIN, INT_MAX in *; lia. }
    rewrite rd_last.
    destruct (list.last row) as [q|] eqn:Hq.
    2:{ apply last_None in Hq. subst row. cbn in Hrow. lia. }
    cbn [mbind option_bind].
    pose proof (ascending_last row q Hasc Hq) as Hmax.
    assert (q ∈ row) as Hqin.
    { rewrite last_lookup in Hq. by eapply list_elem_of_lookup_2. }
    destruct (IH (if decide (dd0 < q.1) then q.1 else dd0) Hascs)
      as (dd & -> & Hge & Hub & Hatt).
    exists dd. split; [done|]. cbn [concat].
    repeat split.
    + case_decide; lia.
    + intros p [Hp|Hp]%elem_of_app; [|by apply Hub].
      specialize (Hmax p Hp). case_decide; lia.
    + destruct Hatt as [->|(p & Hp & Hpd)].
      * case_decide; [right | by left].
        exists q. split; [|done]. apply elem_of_app. by left.
      * right. exists p. split; [|done]. apply elem_of_app. by right.
Qed.

(** C5. When every generated row has [r >= 1] pairs in ascending order of
    their 1-based feature ids, the column dimension [dd] that [main]
    computes (lines 192-197) and hands to [Xdata_randbin.Init] is the
    largest stored column index plus one: the store keeps [id - 1] for
    every generated id, every stored index is below [dd], and (as soon as
    there is a row) the index [dd - 1] is stored. *)
Theorem column_dimension_is_max_stored_index_plus_1
    (instances_new : instances) (r Xtrain_N Xtest_N : Z) :
  1 <= r <= INT_MAX ->
  Z.of_nat (length instances_new) = long_add Xtrain_N Xtest_N ->
  r * Z.of_nat (length instances_new) <= LONG_MAX ->
  Forall (fun row => Z.of_nat (length row) = r) instances_new ->
  Forall (fun row => ascending row = true) instances_new ->
  Forall (Forall (fun p => 1 <= p.1 <= INT_MAX)) instances_new ->
  exists dd S,
    main_dd instances_new r = Some dd /\
    main_fill instances_new r Xtrain_N Xtest_N dd = Some S /\
    SP_GetD S = dd /\
    GetPointerIdx S = (fun p => p.1 - 1) <$> concat instances_new /\
    (forall c, c ∈ GetPointerIdx S -> 0 <= c < dd) /\
    (instances_new <> [] -> dd - 1 ∈ GetPointerIdx S).
Proof.
  intros Hr HN Hfit Hlen Hasc Hids.
  destruct (main_dd_loop_spec r instances_new 0 Hr Hlen Hasc)
    as (dd & Hdd & Hge & Hub & Hatt).
  destruct (main_fill_spec instances_new r Xtrain_N Xtest_N dd HN Hlen Hfit)
    as (S & HS & _ & Hd & _ & _ & Hix & _).
  assert (forall p, p ∈ concat instances_new -> 1 <= p.1 <= INT_MAX) as Hid.
  { intros p (row & Hp & Hrow)%elem_of_concat.
    rewrite list.Forall_forall in Hids. specialize (Hids row Hrow).
    rewrite list.Forall_forall in Hids. by apply Hids. }
  assert (GetPointerIdx S = (fun p => p.1 - 1) <$> concat instances_new)
    as Hix'.
  { rewrite Hix. apply Forall_fmap_ext_1, list.Forall_forall. intros p Hp.
    unfold stored_col, int_sub. apply wrap32_id.
    specialize (Hid p Hp). unfold INT_MIN, INT_MAX in *. lia. }
  exists dd, S. do 4 (split; [done|]). split.
  - intros c Hc. rewrite Hix' in Hc.
    apply list_elem_of_fmap in Hc as (p & -> & Hp).
    specialize (Hid p Hp). specialize (Hub p Hp). lia.
  - intros Hne. rewrite Hix'. apply list_elem_of_fmap.
    destruct Hatt as [->|(p & Hp & <-)]; [|by exists p].
    exfalso. destruct instances_new as [|row rows]; [done|].
    apply list.Forall_cons in Hlen as [Hrow _].
    destruct row as [|p row]; [cbn in Hrow; lia|].
    assert (p ∈ concat ((p :: row) :: rows)) as Hp by (cbn; left).
    specialize (Hid p Hp). specialize (Hub p Hp). lia.
Qed.

Lemma column_dimension_is_max_stored_index_plus_1_witness :
  exists S,
    main_dd [[(1, unit_weight); (5, unit_weight)];
             [(2, unit_weight); (4, unit_weight)]] 2 = Some 5 /\
    main_fill [[(1, unit_weight); (5, unit_weight)];
               [(2, unit_weight); (4, unit_weight)]] 2 1 1 5 = Some S /\
    4 ∈ GetPointerIdx S.
Proof.
  destruct (column_dimension_is_max_stored_index_plus_1
              [[(1, unit_weight); (5, unit_weight)];
               [(2, unit_weight); (4, unit_weight)]] 2 1 1)
    as (dd & S & Hdd & HS & _ & _ & _ & Hatt).
  - vm_compute. split; discriminate.
  - reflexivity.
  - vm_compute. discriminate.
  - repeat constructor.
  - repeat constructor.
  - repeat constructor; vm_compute; discriminate.
  - assert (dd = 5) as -> by (vm_compute in Hdd; congruence).
    exists S. split; [reflexivity|]. split; [exact HS|].
    apply Hatt. discriminate.
Defined.

(** C1. The identity preconditioner that [main] builds (lines 245-256) has
    [mystart[i] = i], [myidx[i] = i] and [myX[i] = 1] for every [i < M]
    and non-decreasing offsets, but its final offset [mystart[M]] is
    [M + 1], one more than the [M] nonzeros it stores. *)
Theorem EYE_final_offset_is_M_plus_1 (M : Z) :
  0 <= M <= INT_MAX ->
  exists E,
    main_EYE M = Some E /\
    (SP_GetN E, SP_GetD E, SP_nnz E) = (M, M, M) /\
    Z.of_nat (length (GetPointerIdx E)) = M /\
    (forall i, 0 <= i < M ->
       rd (GetPointerStart E) i = Some i /\
       rd (GetPointerIdx E) i = Some i /\
       rd (GetPointerX E) i = Some (Fin 1%Qc)) /\
    (forall i j a b, 0 <= i <= j -> j <= M ->
       rd (GetPointerStart E) i = Some a ->
       rd (GetPointerStart E) j = Some b -> a <= b) /\
    rd (GetPointerStart E) M = Some (M + 1) /\
    rd (GetPointerStart E) M <> Some (SP_nnz E).
Proof.
  intros HM. unfold main_EYE.
  edestruct (EYE_loop_spec (Z.to_nat M) 0 (SPointArray_Init M M M))
    as (E & -> & Hn & Hl & Hlx & Hst & Hix & HXv).
  1-4: cbn; rewrite ?length_replicate; lia.
  cbn [mbind option_bind].
  cbn [SPointArray_Init GetPointerStart GetPointerIdx GetPointerX
       SP_GetN SP_GetD SP_nnz] in Hn, Hl, Hlx, Hst, Hix, HXv.
  rewrite length_replicate in Hl. rewrite length_replicate in Hlx.
  rewrite Z.max_r by lia. rewrite wr_Some by lia. cbn [mbind option_bind].
  assert (long_add M 1 = M + 1) as ->.
  { apply wrap64_id. unfold LONG_MIN, LONG_MAX, INT_MAX in *. lia. }
  injection Hn as HN Hd Hnnz.
  assert (forall k, 0 <= k <= M ->
            rd (<[Z.to_nat M := M + 1]> (GetPointerStart E)) k =
              Some (if decide (k = M) then M + 1 else k)) as Hst'.
  { intros k Hk. rewrite rd_insert by lia.
    case_decide; [done|]. rewrite Hst. by rewrite decide_True by lia. }
  eexists; split; [done|]. cbn.
  split; [congruence|]. split; [lia|]. split; [|split; [|split]].
  - intros i Hi. repeat split.
    + rewrite Hst' by lia. by rewrite decide_False by lia.
    + rewrite Hix, decide_True by lia. f_equal.
      apply wrap32_id. unfold INT_MIN, INT_MAX in *. lia.
    + rewrite HXv. by rewrite decide_True by lia.
  - intros i j a b Hij HjM. rewrite (Hst' i), (Hst' j) by lia.
    intros [= <-] [= <-]. repeat case_decide; lia.
  - rewrite Hst' by lia. by rewrite decide_True.
  - rewrite Hst' by lia. rewrite decide_True by done.
    intros [= Heq]. lia.
Qed.

Lemma EYE_final_offset_is_M_plus_1_witness :
  exists E, main_EYE 3 = Some E /\
            rd (GetPointerStart E) 3 = Some 4 /\ SP_nnz E = 3.
Proof.
  destruct (EYE_final_offset_is_M_plus_1 3)
    as (E & HE & Hn & _ & _ & _ & Hlast & _).
  - vm_compute. split; discriminate.
  - exists E. split; [exact HE|]. split; [exact Hlast|]. congruence.
Defined.

(** ** The command line *)

Section CommandLineFacts.

Variable atoi : string -> Z.
Variable atof : string -> double.

Lemma next_arg_cursor argv idx s rest :
  Z.of_nat (length argv) <= INT_MAX ->
  cursor argv idx (s :: rest) ->
  next_arg argv idx = Some (s, idx + 1) /\ cursor argv (idx + 1) rest.
Proof.
  intros Hargc [Hidx Hdrop].
  assert (argv !! Z.to_nat idx = Some s) as Hs.
  { rewrite <- (Nat.add_0_r (Z.to_nat idx)), <- lookup_drop. by rewrite Hdrop. }
  pose proof (lookup_lt_Some _ _ _ Hs) as Hlt.
  unfold next_arg, rd. rewrite decide_True, Hs by done.
  cbn [mbind option_bind]. split.
  - do 2 f_equal. apply wrap64_id.
    unfold LONG_MIN, LONG_MAX, INT_MAX in *. lia.
  - split; [lia|].
    rewrite (drop_S _ _ _ Hs) in Hdrop.
    replace (Z.to_nat (idx + 1)) with (S (Z.to_nat idx)) by lia.
    congruence.
Qed.

Lemma read_doubles_cursor argv xs : forall idx rest,
  Z.of_nat (length argv) <= INT_MAX ->
  cursor argv idx (xs ++ rest) ->
  read_doubles atof argv (length xs) idx =
    Some (atof <$> xs, idx + Z.of_nat (length xs)) /\
  cursor argv (idx + Z.of_nat (length xs)) rest.
Proof.
  induction xs as [|x xs IH]; intros idx rest Hargc Hcur.
  - cbn. rewrite Z.add_0_r. done.
  - cbn [length read_doubles].
    destruct (next_arg_cursor argv idx x (xs ++ rest) Hargc Hcur)
      as [-> Hcur'].
    cbn [mbind option_bind fst snd].
    destruct (IH (idx + 1) rest Hargc Hcur') as [-> Hcur''].
    cbn [mbind option_bind fst snd].
    replace (idx + 1 + Z.of_nat (length xs))
      with (idx + Z.of_nat (S (length xs))) in * by lia.
    done.
Qed.

End CommandLineFacts.

(** C4. The parser of [main] reads, in this order and starting at
    [argv[1]]: NumThreads, FileTrain, FileTest, NumClasses, d, r,
    Num_lambda, Num_lambda values for List_lambda, Num_sigma, Num_sigma
    values for List_sigma, MAXIT, TOL and verbose.  It stops there, after
    [11 + Num_lambda + Num_sigma] arguments: the argument that follows r is
    read as Num_lambda, and no argument is read as a seed or as a kernel
    name. *)
Theorem main_parse_positional
    (atoi : string -> Z) (atof : string -> double)
    (prog a_NumThreads a_FileTrain a_FileTest a_NumClasses a_d a_r
       a_Num_lambda a_Num_sigma a_MAXIT a_TOL a_verbose : string)
    (a_lambda a_sigma unread : list string) :
  let argv :=
    [prog; a_NumThreads; a_FileTrain; a_FileTest; a_NumClasses; a_d; a_r;
     a_Num_lambda] ++ a_lambda ++ [a_Num_sigma] ++ a_sigma ++
    [a_MAXIT; a_TOL; a_verbose] ++ unread in
  Z.of_nat (length argv) <= INT_MAX ->
  length a_lambda = Z.to_nat (atoi a_Num_lambda) ->
  length a_sigma = Z.to_nat (atoi a_Num_sigma) ->
  main_parse atoi atof argv =
    Some ({| NumThreads := atoi a_NumThreads;
             FileTrain := a_FileTrain;
             FileTest := a_FileTest;
             NumClasses := atoi a_NumClasses;
             d := atoi a_d;
             r := atoi a_r;
             Num_lambda := atoi a_Num_lambda;
             List_lambda := atof <$> a_lambda;
             Num_sigma := atoi a_Num_sigma;
             List_sigma := atof <$> a_sigma;
             MAXIT := atoi a_MAXIT;
             TOL := atof a_TOL;
             verbose := negb (atoi a_verbose =? 0) |},
          12 + Z.of_nat (length a_lambda) + Z.of_nat (length a_sigma)).
Proof.
  intros argv Hargc Hl Hs. unfold main_parse.
  assert (cursor argv 1 (a_NumThreads :: a_FileTrain :: a_FileTest ::
            a_NumClasses :: a_d :: a_r :: a_Num_lambda :: a_lambda ++
            [a_Num_sigma] ++ a_sigma ++ [a_MAXIT; a_TOL; a_verbose] ++ unread))
    as Hcur by (split; [lia | done]).
  repeat
    (match goal with
     | Hc : cursor argv ?i (?s :: ?rest) |- context [next_arg argv ?i] =>
         let Hc' := fresh "Hcur" in
         destruct (next_arg_cursor argv i s rest Hargc Hc) as [-> Hc'];
         clear Hc; cbn [mbind option_bind fst snd]
     end).
  rewrite <- Hl.
  destruct (read_doubles_cursor atof argv a_lambda _ _ Hargc Hcur0)
    as [-> Hcur1].
  cbn [mbind option_bind fst snd app] in *.
  destruct (next_arg_cursor argv _ _ _ Hargc Hcur1) as [-> Hcur2].
  cbn [mbind option_bind fst snd]. rewrite <- Hs.
  destruct (read_doubles_cursor atof argv a_sigma _ _ Hargc Hcur2)
    as [-> Hcur3].
  cbn [mbind option_bind fst snd app] in *.
  destruct (next_arg_cursor argv _ _ _ Hargc Hcur3) as [-> Hcur4].
  cbn [mbind option_bind fst snd].
  destruct (next_arg_cursor argv _ _ _ Hargc Hcur4) as [-> Hcur5].
  cbn [mbind option_bind fst snd].
  destruct (next_arg_cursor argv _ _ _ Hargc Hcur5) as [-> Hcur6].
  cbn [mbind option_bind fst snd].
  do 2 f_equal. lia.
Qed.

Lemma main_parse_positional_witness :
  main_parse decimal (fun s => of_long (decimal s))
    ["KRR_OneVsAll_RandBin.ex"; "4"; "train.txt"; "test.txt"; "3"; "10";
     "16"; "2"; "1"; "10"; "1"; "5"; "100"; "0"; "1"; "IsotropicLaplace"]%string
  = Some ({| NumThreads := 4;
             FileTrain := "train.txt";
             FileTest := "test.txt";
             NumClasses := 3;
             d := 10;
             r := 16;
             Num_lambda := 2;
             List_lambda := [of_long 1; of_long 10];
             Num_sigma := 1;
             List_sigma := [of_long 5];
             MAXIT := 100;
             TOL := of_long 0;
             verbose := true |}, 15).
Proof.
  apply (main_parse_positional decimal (fun s => of_long (decimal s))
           "KRR_OneVsAll_RandBin.ex" "4" "train.txt" "test.txt" "3" "10" "16"
           "2" "1" "100" "0" "1" ["1"; "10"]%string ["5"%string]
           ["IsotropicLaplace"%string]).
  - vm_compute. discriminate.
  - reflexivity.
  - reflexivity.
Defined.

(** ** The sweep *)

Section SweepFacts.

Context {rng : Type}.
Variable srandom : Z -> rng.
Variable random_binning_feature :
  Z -> Z -> instances -> double -> rng -> instances * rng.
Variable fit_and_score :
  Args -> double -> double -> instances -> rng -> double * rng.
Variables (a : Args) (Xtrain Xtest : DPointArray) (instances_old : instances).
Hypothesis Hold : main_instances_old Xtrain Xtest (d a) = Some instances_old.

Lemma main_sigma_loop_alone (lambda : double) (sigmas : list double) :
  forall g, exists g',
    main_sigma_loop rng srandom random_binning_feature fit_and_score
      a Xtrain Xtest lambda sigmas g
    = Some (sweep_point_alone srandom random_binning_feature fit_and_score
              a instances_old lambda <$> sigmas, g').
Proof.
  induction sigmas as [|sigma sigmas IH]; intros g.
  - by exists g.
  - cbn [main_sigma_loop]. rewrite Hold. cbn [mbind option_bind].
    edestruct IH as [g' ->]. cbn [mbind option_bind fst snd].
    by exists g'.
Qed.

Lemma main_lambda_loop_alone (lambdas : list double) :
  forall g, exists g',
    main_lambda_loop rng srandom random_binning_feature fit_and_score
      a Xtrain Xtest lambdas g
    = Some (concat ((fun lambda =>
                       sweep_point_alone srandom random_binning_feature
                         fit_and_score a instances_old lambda
                       <$> List_sigma a) <$> lambdas),
            g').
Proof.
  induction lambdas as [|lambda lambdas IH]; intros g.
  - by exists g.
  - cbn [main_lambda_loop].
    destruct (main_sigma_loop_alone lambda (List_sigma a) g) as [g1 ->].
    cbn [mbind option_bind fst snd].
    destruct (IH g1) as [g' ->]. cbn [mbind option_bind fst snd].
    by exists g'.
Qed.

End SweepFacts.

(** C3. Every combination of the sweep calls [srandom] with the same seed,
    0, before it generates its features.  Hence the whole sweep is the same
    whatever the state of the generator was when it started (in this run or
    in another): it visits the pairs (lambda, sigma) in order, each
    combination enters feature generation in the state [srandom 0], and
    the rows it generates are those of a call made in that state with its
    bandwidth, so that two combinations with the same sigma generate the
    same rows. *)
Theorem sweep_reseeds_every_combination
    (rng : Type) (srandom : Z -> rng)
    (random_binning_feature :
       Z -> Z -> instances -> double -> rng -> instances * rng)
    (fit_and_score : Args -> double -> double -> instances -> rng -> double * rng)
    (a : Args) (Xtrain Xtest : DPointArray) (instances_old : instances) :
  main_instances_old Xtrain Xtest (d a) = Some instances_old ->
  exists pts,
    (forall g,
       main_sweep rng srandom random_binning_feature fit_and_score
         a Xtrain Xtest g = Some pts) /\
    (fun pt => (pt_lambda pt, pt_sigma pt)) <$> pts
      = list_prod (List_lambda a) (List_sigma a) /\
    Forall (fun pt =>
              pt_rng pt = srandom 0 /\
              pt_features pt =
                (random_binning_feature (int_add (d a) 1) (r a) instances_old
                   (pt_sigma pt) (srandom 0)).1) pts /\
    (forall p q, p ∈ pts -> q ∈ pts -> pt_sigma p = pt_sigma q ->
       pt_features p = pt_features q).
Proof.
  intros Hold.
  set (alone := sweep_point_alone srandom random_binning_feature fit_and_score
                  a instances_old).
  set (pts := concat ((fun lambda => alone lambda <$> List_sigma a)
                        <$> List_lambda a)).
  assert (Forall (fun pt =>
              pt_rng pt = srandom 0 /\
              pt_features pt =
                (random_binning_feature (int_add (d a) 1) (r a) instances_old
                   (pt_sigma pt) (srandom 0)).1) pts) as Hpts.
  { subst pts. induction (List_lambda a) as [|lambda lambdas IH]; [done|].
    cbn [fmap list_fmap concat]. apply Forall_app. split; [|exact IH].
    apply Forall_fmap, Forall_true. intros sigma. done. }
  exists pts. split; [|split; [|split]].
  - intros g. unfold main_sweep.
    destruct (main_lambda_loop_alone srandom random_binning_feature
                fit_and_score a Xtrain Xtest instances_old Hold
                (List_lambda a) g) as [g' ->].
    done.
  - clear Hpts. subst pts.
    induction (List_lambda a) as [|lambda lambdas IH]; [done|].
    cbn [fmap list_fmap concat list_prod]. rewrite fmap_app. f_equal; [|exact IH].
    rewrite <- list_fmap_compose. clear.
    induction (List_sigma a) as [|sigma sigmas IH]; [done|].
    cbn. by rewrite <- IH.
  - exact Hpts.
  - rewrite list.Forall_forall in Hpts.
    intros p q [_ Hp]%Hpts [_ Hq]%Hpts Hsigma. by rewrite Hp, Hq, Hsigma.
Qed.

Lemma sweep_reseeds_every_combination_witness :
  exists pts,
    main_sweep Z toy_srandom toy_random_binning_feature toy_fit_and_score
      toy_Args toy_Xtrain toy_Xtest 42 = Some pts /\
    main_sweep Z toy_srandom toy_random_binning_feature toy_fit_and_score
      toy_Args toy_Xtrain toy_Xtest 7 = Some pts /\
    length pts = 2%nat.
Proof.
  destruct (sweep_reseeds_every_combination Z toy_srandom
              toy_random_binning_feature toy_fit_and_score
              toy_Args toy_Xtrain toy_Xtest
              [[(1, dec 1 1)]; [(2, dec 2 1)]])
    as (pts & Hrun & Hgrid & _).
  - reflexivity.
  - exists pts. split; [apply Hrun|]. split; [apply Hrun|].
    apply (f_equal length) in Hgrid. rewrite length_fmap in Hgrid.
    exact Hgrid.
Defined.

(** ** Doubles *)

Lemma Fin_eq (a b : Qc) : (a == b)%Q -> Fin a = Fin b.
Proof. intros H. f_equal. by apply Qc_is_canon. Qed.

Lemma Qcmult_pos_iff (a b : Qc) :
  (0 < a * b)%Qc <-> (0 < a /\ 0 < b)%Qc \/ (a < 0 /\ b < 0)%Qc.
Proof.
  unfold Qclt, Qcmult, Q2Qc. cbn [this]. rewrite !Qred_correct.
  destruct a as [a Ha], b as [b Hb]. cbn [this]. clear Ha Hb.
  split.
  - intros H.
    destruct (Qlt_le_dec 0 a) as [Hpa|Hna], (Qlt_le_dec 0 b) as [Hpb|Hnb].
    + by left.
    + exfalso. nra.
    + exfalso. nra.
    + right. split.
      * destruct (Qlt_le_dec a 0); [done|]. exfalso. nra.
      * destruct (Qlt_le_dec b 0); [done|]. exfalso. nra.
  - intros [[? ?]|[? ?]]; nra.
Qed.

Lemma Qclt_irrefl (a : Qc) : ~ (a < a)%Qc.
Proof. unfold Qclt. apply Qlt_irrefl. Qed.

Lemma Qc_neg_not_pos (a : Qc) : (a < 0)%Qc -> ~ (0 < a)%Qc.
Proof. unfold Qclt. lra. Qed.

Lemma Qc_trichotomy (a : Qc) : (a < 0)%Qc \/ a = 0%Qc \/ (0 < a)%Qc.
Proof. destruct (Qc_dec a 0) as [[?|?]|?]; auto. Qed.

(** Closes a goal whose hypotheses place a rational on two sides of 0. *)
Ltac qc_absurd :=
  exfalso;
  match goal with
  | H : (?a < ?a)%Qc |- _ => exact (Qclt_irrefl _ H)
  | H1 : (?a < 0)%Qc, H2 : (0 < ?a)%Qc |- _ => exact (Qc_neg_not_pos _ H1 H2)
  | H1 : ~ (?a < 0)%Qc, H2 : ~ (0 < ?a)%Qc, H3 : ?a <> 0%Qc |- _ =>
      destruct (Qc_trichotomy a) as [?|[?|?]]; done
  end.

(** The test of line 415 passes exactly when the two values are strictly
    of the same sign. *)
Lemma sign_test_same_sign (x y : double) :
  dgt (dmul x y) (Fin 0%Qc) = same_sign x y.
Proof.
  unfold same_sign, is_positive, is_negative.
  destruct x as [a| | |], y as [b| | |];
    cbn [dmul dgt dneg andb orb];
    rewrite ?andb_false_r, ?andb_true_r, ?orb_false_r; try done.
  1:{ apply eq_iff_eq_true.
      rewrite orb_true_iff, !andb_true_iff, !bool_decide_eq_true.
      apply Qcmult_pos_iff. }
  all: unfold inf_of_sign, qpos; repeat case_bool_decide; subst; try done;
    qc_absurd.
Qed.

(** ** The tallies of the scorers *)

Lemma tally_from (test : Z -> bool) (l : list Z) : forall c : Z,
  foldl (fun perf i => dadd perf (if test i then Fin 1%Qc else Fin 0%Qc))
    (Fin (Qc_of_Z c)) l
  = Fin (Qc_of_Z (c + Z.of_nat (length (filter (fun i => Is_true (test i)) l)))).
Proof.
  induction l as [|i l IH]; intros c.
  - cbn. by rewrite Z.add_0_r.
  - cbn [foldl]. rewrite filter_cons. destruct (test i) eqn:Hi.
    + rewrite decide_True by done. cbn [dadd length].
      replace (Qc_of_Z c + 1)%Qc with (Qc_of_Z (c + 1))
        by (by rewrite Z2Qc_inj_add, Z2Qc_inj_1).
      rewrite IH. do 2 f_equal. lia.
    + case_decide as Hd; [destruct Hd|]. cbn [dadd].
      replace (Qc_of_Z c + 0)%Qc with (Qc_of_Z c) by ring.
      apply IH.
Qed.

Lemma tally_count (test : Z -> bool) (n : Z) :
  tally test n = of_long (count_true test n).
Proof.
  pose proof (tally_from test (seqZ 0 n) 0) as H.
  rewrite Z2Qc_inj_0 in H. exact H.
Qed.

Lemma count_true_bounds (test : Z -> bool) (n : Z) :
  0 <= n -> 0 <= count_true test n <= n.
Proof.
  intros Hn. unfold count_true.
  pose proof (length_filter (fun i => Is_true (test i)) (seqZ 0 n)) as H.
  rewrite length_seqZ in H. lia.
Qed.

Lemma filter_test_ext (f g : Z -> bool) (l : list Z) :
  (forall i, i ∈ l -> f i = g i) ->
  filter (fun i => Is_true (f i)) l = filter (fun i => Is_true (g i)) l.
Proof.
  induction l as [|i l IH]; intros H; [done|].
  rewrite !filter_cons, (H i) by left.
  rewrite IH; [done|]. intros j Hj. apply H. by right.
Qed.

Lemma count_true_ext (f g : Z -> bool) (n : Z) :
  (forall i, 0 <= i < n -> f i = g i) -> count_true f n = count_true g n.
Proof.
  intros H. unfold count_true. do 2 f_equal.
  apply filter_test_ext. intros i Hi%elem_of_seqZ. apply H. lia.
Qed.

(** [perf / n * 100.0] on a tally. *)
Lemma percent_of_count (c n : Z) :
  0 < n ->
  dmul (ddiv (of_long c) (of_long n)) (Fin (Qc_of_Z 100))
  = Fin (percentage c n).
Proof.
  intros Hn. unfold of_long, percentage. cbn [ddiv].
  rewrite bool_decide_eq_false_2.
  - cbn [dmul]. f_equal. ring.
  - rewrite <- Z2Qc_inj_0. intros H%Z2Qc_inj. lia.
Qed.

Lemma percentage_range (c n : Z) :
  0 <= c <= n -> 0 < n ->
  (0 <= percentage c n)%Qc /\ (percentage c n <= Qc_of_Z 100)%Qc.
Proof.
  intros Hc Hn. unfold percentage.
  assert (0 < Qc_of_Z n)%Qc as Hn'.
  { rewrite <- Z2Qc_inj_0. by apply (proj1 (Z2Qc_inj_lt _ _)). }
  assert (0 <= Qc_of_Z c / Qc_of_Z n)%Qc as H0.
  { apply Qcmult_nonneg_nonneg.
    - rewrite <- Z2Qc_inj_0. apply (proj1 (Z2Qc_inj_le _ _)). lia.
    - apply Qclt_le_weak, Qcinv_pos, Hn'. }
  assert (Qc_of_Z c / Qc_of_Z n <= 1)%Qc as H1.
  { apply (Qcmult_lt_0_le_reg_r _ _ (Qc_of_Z n) Hn').
    rewrite Qcmult_1_l. unfold Qcdiv.
    rewrite <- Qcmult_assoc, (Qcmult_comm (/ _)), Qcmult_inv_r.
    - rewrite Qcmult_1_r. apply (proj1 (Z2Qc_inj_le _ _)). lia.
    - intros H. rewrite H in Hn'. by apply Qclt_irrefl in Hn'. }
  split.
  - apply Qcmult_nonneg_nonneg; [|done].
    rewrite <- Z2Qc_inj_0. by apply (proj1 (Z2Qc_inj_le _ _)).
  - rewrite <- (Qcmult_1_r (Qc_of_Z 100)) at 2.
    apply Qcmult_le_mono_nonneg_l; [|done].
    rewrite <- Z2Qc_inj_0. by apply (proj1 (Z2Qc_inj_le _ _)).
Qed.

(** ** The scorers *)

Section ScorerFacts.

Variable Subtract : DVector -> DVector -> DVector.
Variable Norm2 : DVector -> double.

Lemma Performance_binary (ytest_truth ytest_predict : DVector) :
  length ytest_truth = length ytest_predict ->
  Performance Subtract Norm2 ytest_truth ytest_predict 2
  = ([], dmul (ddiv (of_long (count_true (sign_test ytest_truth ytest_predict)
                                (DV_GetN ytest_truth)))
                 (of_long (DV_GetN ytest_truth)))
           (Fin (Qc_of_Z 100))).
Proof.
  intros Hlen. unfold Performance, DV_GetN. rewrite Hlen.
  rewrite decide_False by (intros H; by apply H).
  rewrite decide_False by lia. rewrite decide_False by lia.
  by rewrite tally_count.
Qed.

Lemma elt_insert (v : DVector) (i j : Z) (x : double) :
  0 <= i < DV_GetN v ->
  elt (<[Z.to_nat i := x]> v) j = if decide (j = i) then x else elt v j.
Proof.
  intros Hi. unfold elt. rewrite rd_insert by done. by case_decide.
Qed.

End ScorerFacts.

(** C6. Each scorer prints an error line and returns NaN exactly when its
    size or class-count precondition is violated: for the vector scorer,
    different lengths or a class count other than 1 and 2; for the matrix
    scorer, a truth length other than the number of rows, a number of
    columns other than the class count, or a class count of at most 2.
    Otherwise nothing is printed and the value returned is the score
    computed. *)
Theorem Performance_fails_exactly_on_violated_preconditions
    (Subtract : DVector -> DVector -> DVector) (Norm2 : DVector -> double) :
  (forall (ytest_truth ytest_predict : DVector) (NumClasses : Z),
     let res := Performance Subtract Norm2 ytest_truth ytest_predict NumClasses in
     let violated :=
       DV_GetN ytest_truth <> DV_GetN ytest_predict \/
       ~ (NumClasses = 1 \/ NumClasses = 2) in
     (violated <-> exists msg, res = ([msg], NaN)) /\
     (~ violated <-> res.1 = [])) /\
  (forall (ytest_truth : DVector) (Ytest_predict : DMatrix) (NumClasses : Z),
     let res := Performance_DMatrix ytest_truth Ytest_predict NumClasses in
     let violated :=
       DV_GetN ytest_truth <> DM_GetM Ytest_predict \/
       DM_GetN Ytest_predict <> NumClasses \/ NumClasses <= 2 in
     (violated <-> exists msg, res = ([msg], NaN)) /\
     (~ violated <-> res.1 = [])).
Proof.
  split.
  - intros truth predict NumClasses res violated. subst res violated.
    unfold Performance. repeat case_decide; cbn [fst].
    all: split; split; try done; try (intros _; eauto; fail);
      try (intros [msg [=]]; fail); intros; try lia; try tauto.
  - intros truth Y NumClasses res violated. subst res violated.
    unfold Performance_DMatrix. repeat case_decide; cbn [fst].
    all: split; split; try done; try (intros _; eauto; fail);
      try (intros [msg [=]]; fail); intros; try lia; try tauto.
Qed.

(** With no point to score the binary scorer divides 0 by 0: it returns
    NaN and prints nothing. *)
Lemma Performance_of_no_point
    (Subtract : DVector -> DVector -> DVector) (Norm2 : DVector -> double) :
  Performance Subtract Norm2 [] [] 2 = ([], NaN).
Proof. reflexivity. Qed.



(** C10. In the binary scorer a point whose truth or whose prediction is
    exactly 0 fails the test [y1[i]*y2[i] > 0], whatever the other value
    is; it weighs on the score as a point of truth +1 predicted -1 does.
    A point with truth 0 and prediction 0 scores 0. *)
Theorem zero_value_is_counted_incorrect
    (Subtract : DVector -> DVector -> DVector) (Norm2 : DVector -> double) :
  (forall y : double,
     dgt (dmul (Fin 0%Qc) y) (Fin 0%Qc) = false /\
     dgt (dmul y (Fin 0%Qc)) (Fin 0%Qc) = false) /\
  (forall (ytest_truth ytest_predict : DVector) (i : Z),
     elt ytest_truth i = Fin 0%Qc \/ elt ytest_predict i = Fin 0%Qc ->
     sign_test ytest_truth ytest_predict i = false) /\
  (forall (ytest_truth ytest_predict : DVector) (i : Z),
     length ytest_truth = length ytest_predict ->
     0 <= i < DV_GetN ytest_truth ->
     elt ytest_truth i = Fin 0%Qc \/ elt ytest_predict i = Fin 0%Qc ->
     Performance Subtract Norm2 ytest_truth ytest_predict 2
     = Performance Subtract Norm2
         (<[Z.to_nat i := Fin 1%Qc]> ytest_truth)
         (<[Z.to_nat i := Fin (-1)%Qc]> ytest_predict) 2) /\
  Performance Subtract Norm2 [Fin 0%Qc] [Fin 0%Qc] 2 = ([], Fin 0%Qc).
Proof.
  assert (forall y : double,
     dgt (dmul (Fin 0%Qc) y) (Fin 0%Qc) = false /\
     dgt (dmul y (Fin 0%Qc)) (Fin 0%Qc) = false) as Hzero.
  { intros y. rewrite !sign_test_same_sign.
    unfold same_sign, is_positive, is_negative. cbn [dgt].
    rewrite !bool_decide_eq_false_2 by apply Qclt_irrefl.
    by rewrite !andb_false_r. }
  assert (forall (truth predict : DVector) (i : Z),
     elt truth i = Fin 0%Qc \/ elt predict i = Fin 0%Qc ->
     sign_test truth predict i = false) as Htest.
  { intros truth predict i [H|H]; unfold sign_test; rewrite H; apply Hzero. }
  split; [exact Hzero|]. split; [exact Htest|]. split.
  - intros truth predict i Hlen Hi Hz.
    rewrite !Performance_binary by (by rewrite ?length_insert).
    unfold DV_GetN in *. rewrite !length_insert.
    do 4 f_equal. apply count_true_ext. intros j Hj.
    destruct (decide (j = i)) as [->|Hne].
    + rewrite Htest by done. unfold sign_test.
      rewrite !elt_insert by (unfold DV_GetN; lia).
      rewrite !decide_True by done. reflexivity.
    + unfold sign_test. rewrite !elt_insert by (unfold DV_GetN; lia).
      by rewrite !decide_False by done.
  - unfold Performance. cbn [fst snd].
    first [reflexivity | f_equal; apply Fin_eq; reflexivity].
Qed.

Lemma zero_value_is_counted_incorrect_witness :
  sign_test [Fin 0%Qc; Fin 1%Qc] [Fin 0%Qc; Fin 1%Qc] 0 = false.
Proof.
  destruct (zero_value_is_counted_incorrect (fun _ _ => []) (fun _ => NaN))
    as (_ & H & _).
  apply H. left. reflexivity.
Defined.

(** ** Label recoding *)

Lemma to_int_of_long (k : Z) :
  INT_MIN <= k <= INT_MAX -> to_int (of_long k) = k.
Proof.
  intros Hk. unfold to_int, of_long. cbn [Qc_of_Z this inject_Z Qnum Qden].
  rewrite Z.quot_1_r. by rewrite decide_True.
Qed.

Lemma of_long_inj (j k : Z) : of_long j = of_long k -> j = k.
Proof. intros [= H]. done. Qed.

Lemma elt_recode (i j : Z) (y : DVector) (v : double) :
  rd y j = Some v ->
  elt (recode i y) j = if decide (to_int v = i) then Fin 1%Qc else Fin (-1)%Qc.
Proof. intros H. unfold elt, recode. by rewrite rd_fmap, H. Qed.

Lemma ConvertYtrain_columns (ytrain : DVector) (l : list Z) : forall Y : DMatrix,
  let Y' := foldl (fun Y i => SetColumn Y i (recode i ytrain)) Y l in
  DM_GetM Y' = DM_GetM Y /\ DM_GetN Y' = DM_GetN Y /\
  forall j i, DM_entry Y' j i =
    if decide (i ∈ l) then elt (recode i ytrain) j else DM_entry Y j i.
Proof.
  induction l as [|x l IH]; intros Y.
  - cbn. repeat split.
  - cbn [foldl]. destruct (IH (SetColumn Y x (recode x ytrain)))
      as (HM & HN & Hentry).
    cbn zeta. rewrite HM, HN. repeat split. intros j i.
    rewrite Hentry. cbn [SetColumn DM_entry].
    destruct (decide (i ∈ l)) as [Hl|Hl], (decide (i = x)) as [->|Hx].
    + rewrite decide_True by left. done.
    + rewrite decide_True by (by right). done.
    + rewrite decide_True by left. done.
    + rewrite decide_False; [done|]. by intros [?|?]%elem_of_cons.
Qed.

(** C9. On a vector of integer labels taken from [0, NumClasses),
    [ConvertYtrain] yields a matrix with one row per label and one column
    per class whose entry in row [j] and column [i] is +1 when label [j]
    is [i] and -1 otherwise; so row [j] holds +1 in the column of its
    label and in no other column. *)
Theorem ConvertYtrain_one_vs_all (labels : list Z) (NumClasses : Z) :
  NumClasses <= INT_MAX ->
  Forall (fun k => 0 <= k < NumClasses) labels ->
  let Ytrain := ConvertYtrain (of_long <$> labels) NumClasses in
  DM_GetM Ytrain = Z.of_nat (length labels) /\
  DM_GetN Ytrain = NumClasses /\
  forall j k, rd labels j = Some k ->
    (forall i, 0 <= i < NumClasses ->
       DM_entry Ytrain j i = if decide (k = i) then Fin 1%Qc else Fin (-1)%Qc) /\
    (forall i, 0 <= i < NumClasses ->
       DM_entry Ytrain j i = Fin 1%Qc <-> i = k) /\
    (forall i, 0 <= i < NumClasses -> i <> k ->
       DM_entry Ytrain j i = Fin (-1)%Qc).
Proof.
  intros Hmax Hlabels Ytrain.
  destruct (ConvertYtrain_columns (of_long <$> labels) (seqZ 0 NumClasses)
              (DMatrix_Init (DV_GetN (of_long <$> labels)) NumClasses))
    as (HM & HN & Hentry).
  fold (ConvertYtrain (of_long <$> labels) NumClasses) in HM, HN, Hentry.
  fold Ytrain in HM, HN, Hentry.
  split; [|split].
  - rewrite HM. cbn. unfold DV_GetN. by rewrite length_fmap.
  - by rewrite HN.
  - intros j k Hk.
    assert (0 <= k < NumClasses) as Hkr.
    { rewrite list.Forall_forall in Hlabels. apply Hlabels.
      unfold rd in Hk. case_decide; [|done].
      by eapply list_elem_of_lookup_2. }
    assert (forall i, 0 <= i < NumClasses ->
       DM_entry Ytrain j i = if decide (k = i) then Fin 1%Qc else Fin (-1)%Qc)
      as Hall.
    { intros i Hi. rewrite Hentry.
      rewrite decide_True by (apply elem_of_seqZ; lia).
      rewrite (elt_recode i j _ (of_long k)) by (by rewrite rd_fmap, Hk).
      rewrite to_int_of_long by (unfold INT_MIN, INT_MAX in *; lia).
      done. }
    split; [exact Hall|]. split.
    + intros i Hi. rewrite Hall by done. case_decide; [done|].
      split; [|done]. by intros [=].
    + intros i Hi Hne. rewrite Hall by done. by rewrite decide_False.
Qed.

Lemma ConvertYtrain_one_vs_all_witness :
  DM_entry (ConvertYtrain (of_long <$> [0; 2; 1; 2]) 3) 1 2 = Fin 1%Qc.
Proof.
  destruct (ConvertYtrain_one_vs_all [0; 2; 1; 2] 3) as (_ & _ & H).
  - vm_compute. discriminate.
  - repeat constructor; lia.
  - destruct (H 1 2 eq_refl) as (_ & Hone & _).
    apply Hone; [lia | reflexivity].
Defined.

(** ** The first maximum of a row *)

Lemma dgt_irrefl (x : double) : dgt x x = false.
Proof.
  destruct x; cbn; try done.
  apply bool_decide_eq_false_2, Qclt_irrefl.
Qed.

Lemma dgt_trans (a b c : double) :
  dgt a b = true -> dgt b c = true -> dgt a c = true.
Proof.
  destruct a, b, c; cbn; try done.
  rewrite !bool_decide_eq_true. unfold Qclt. lra.
Qed.

(** On values other than NaN, [dgt] is the strict part of a total order. *)
Lemma dgt_below (x b e : double) :
  dgt x b = true -> dgt e b = false -> e <> NaN -> dgt x e = true.
Proof.
  destruct x, b, e; cbn; try done.
  rewrite !bool_decide_eq_true, bool_decide_eq_false. unfold Qclt. lra.
Qed.

Lemma Max_scan_bound (row : list double) : forall j best idx,
  let c := Max_scan row j best idx in
  c = idx \/ j <= c < j + Z.of_nat (length row).
Proof.
  induction row as [|x row IH]; intros j best idx; [by left|].
  cbn [Max_scan length]. destruct (dgt x best).
  - destruct (IH (j + 1) x j) as [->|H]; right; lia.
  - destruct (IH (j + 1) best idx) as [->|H]; [by left | right; lia].
Qed.

Lemma DVector_Max_bound (row : DVector) :
  -1 <= DVector_Max row (-1) < Z.of_nat (length row).
Proof.
  destruct row as [|x row]; [cbn; lia|].
  cbn [DVector_Max length].
  destruct (Max_scan_bound row 1 x 0) as [->|H]; lia.
Qed.

Lemma Max_scan_first_maximum (rest : list double) : forall pre best idx,
  0 <= idx ->
  rd pre idx = Some best ->
  Forall (fun e => dgt e best = false) pre ->
  Forall (fun e => dgt best e = true) (take (Z.to_nat idx) pre) ->
  Forall (fun e => e <> NaN) (pre ++ rest) ->
  let c := Max_scan rest (Z.of_nat (length pre)) best idx in
  exists v,
    0 <= c /\ rd (pre ++ rest) c = Some v /\
    Forall (fun e => dgt e v = false) (pre ++ rest) /\
    Forall (fun e => dgt v e = true) (take (Z.to_nat c) (pre ++ rest)).
Proof.
  induction rest as [|x rest IH]; intros pre best idx Hidx Hbest Hle Hlt Hnan.
  - cbn. rewrite app_nil_r. by exists best.
  - cbn [Max_scan]. pose proof (rd_Some_lt _ _ _ Hbest) as Hlen.
    replace (pre ++ x :: rest) with ((pre ++ [x]) ++ rest) in *
      by (by rewrite <- app_assoc).
    replace (Z.of_nat (length pre) + 1) with (Z.of_nat (length (pre ++ [x])))
      by (rewrite length_app; cbn; lia).
    destruct (dgt x best) eqn:Hx.
    + apply IH; try done.
      * lia.
      * unfold rd. rewrite decide_True, Nat2Z.id by lia.
        by rewrite lookup_app_r, Nat.sub_diag.
      * apply Forall_app. split.
        -- apply list.Forall_forall. intros e He.
           rewrite list.Forall_forall in Hle. specialize (Hle e He).
           destruct (dgt e x) eqn:Hex; [|done].
           by rewrite (dgt_trans e x best) in Hle.
        -- repeat constructor. apply dgt_irrefl.
      * rewrite Nat2Z.id, take_app_length.
        apply Forall_app in Hnan as [Hnan _]. apply Forall_app in Hnan as [Hnan _].
        rewrite list.Forall_forall in Hle, Hnan. apply list.Forall_forall.
        intros e He. eapply dgt_below; eauto.
    + apply IH; try done.
      * unfold rd in *. rewrite decide_True in * by lia.
        rewrite lookup_app_l; [done|lia].
      * apply Forall_app. split; [done|]. by repeat constructor.
      * rewrite take_app_le by lia. done.
Qed.

Lemma DVector_Max_first_maximum (row : DVector) :
  row <> [] -> Forall (fun e => e <> NaN) row ->
  let c := DVector_Max row (-1) in
  exists v,
    0 <= c /\ rd row c = Some v /\
    Forall (fun e => dgt e v = false) row /\
    Forall (fun e => dgt v e = true) (take (Z.to_nat c) row).
Proof.
  intros Hne Hnan. destruct row as [|x row]; [done|].
  cbn [DVector_Max].
  apply (Max_scan_first_maximum row [x] x 0); try done.
  repeat constructor. apply dgt_irrefl.
Qed.

Lemma rd_seqZ (n j : Z) : 0 <= j < n -> rd (seqZ 0 n) j = Some j.
Proof.
  intros Hj. unfold rd. rewrite decide_True by lia.
  rewrite lookup_seqZ_lt by lia. f_equal. lia.
Qed.

Lemma rd_GetRow (Y : DMatrix) (i j : Z) :
  0 <= j < DM_GetN Y -> rd (GetRow Y i) j = Some (DM_entry Y i j).
Proof. intros Hj. unfold GetRow. by rewrite rd_fmap, rd_seqZ. Qed.

Lemma length_GetRow (Y : DMatrix) (i : Z) :
  length (GetRow Y i) = Z.to_nat (DM_GetN Y).
Proof. unfold GetRow. by rewrite length_fmap, length_seqZ. Qed.

Lemma predicted_class_bound (Y : DMatrix) (i : Z) :
  0 <= DM_GetN Y -> -1 <= predicted_class Y i < DM_GetN Y.
Proof.
  intros HN. pose proof (DVector_Max_bound (GetRow Y i)) as H.
  rewrite length_GetRow in H. unfold predicted_class. lia.
Qed.

(** The row's first maximum: no score exceeds the one of the predicted
    class and every score before it is strictly smaller. *)
Lemma predicted_class_first_maximum (Y : DMatrix) (i : Z) :
  0 < DM_GetN Y ->
  (forall j, 0 <= j < DM_GetN Y -> DM_entry Y i j <> NaN) ->
  let c := predicted_class Y i in
  0 <= c < DM_GetN Y /\
  (forall j, 0 <= j < DM_GetN Y ->
     dgt (DM_entry Y i j) (DM_entry Y i c) = false) /\
  (forall j, 0 <= j < c -> dgt (DM_entry Y i c) (DM_entry Y i j) = true).
Proof.
  intros HN Hnan c.
  pose proof (predicted_class_bound Y i ltac:(lia)) as Hb. fold c in Hb.
  destruct (DVector_Max_first_maximum (GetRow Y i)) as (v & Hc & Hv & Hmax & Hlt).
  - intros H. apply (f_equal length) in H.
    rewrite length_GetRow in H. cbn in H. lia.
  - apply list.Forall_forall. intros e He.
    apply list_elem_of_lookup in He as [k Hk].
    pose proof (lookup_lt_Some _ _ _ Hk) as Hklt. rewrite length_GetRow in Hklt.
    pose proof (rd_GetRow Y i (Z.of_nat k) ltac:(lia)) as Hrow.
    unfold rd in Hrow. rewrite decide_True, Nat2Z.id in Hrow by lia.
    assert (e = DM_entry Y i (Z.of_nat k)) as -> by congruence.
    apply Hnan. lia.
  - fold (predicted_class Y i) in Hc, Hv, Hlt. fold c in Hc, Hv, Hlt.
    rewrite rd_GetRow in Hv by lia. injection Hv as <-.
    rewrite list.Forall_forall in Hmax, Hlt.
    split; [lia|]. split.
    + intros j Hj. apply Hmax.
      pose proof (rd_GetRow Y i j Hj) as Hrow. unfold rd in Hrow.
      rewrite decide_True in Hrow by lia.
      by eapply list_elem_of_lookup_2.
    + intros j Hj. apply Hlt.
      pose proof (rd_GetRow Y i j ltac:(lia)) as Hrow. unfold rd in Hrow.
      rewrite decide_True in Hrow by lia.
      apply (list_elem_of_lookup_2 _ (Z.to_nat j)).
      rewrite lookup_take_lt by lia. exact Hrow.
Qed.

Lemma elt_predicted (Y : DMatrix) (n i : Z) :
  0 <= i < n -> elt (predicted Y n) i = of_long (predicted_class Y i).
Proof.
  intros Hi. unfold elt, predicted. by rewrite rd_fmap, rd_seqZ.
Qed.

Lemma Performance_DMatrix_tally (ytest_truth : DVector) (Y : DMatrix)
    (NumClasses : Z) :
  2 < NumClasses <= INT_MAX ->
  DV_GetN ytest_truth = DM_GetM Y ->
  DM_GetN Y = NumClasses ->
  Performance_DMatrix ytest_truth Y NumClasses
  = ([], dmul (ddiv (of_long
                       (count_true
                          (fun i => bool_decide (to_int (elt ytest_truth i)
                                                 = predicted_class Y i))
                          (DV_GetN ytest_truth)))
                 (of_long (DV_GetN ytest_truth)))
           (Fin (Qc_of_Z 100))).
Proof.
  intros HNC HM HN. unfold Performance_DMatrix.
  rewrite decide_False by tauto. rewrite decide_False by lia.
  rewrite tally_count. do 4 f_equal.
  apply count_true_ext. intros i Hi. unfold class_test.
  rewrite elt_predicted by done.
  pose proof (predicted_class_bound Y i ltac:(lia)) as Hb.
  rewrite to_int_of_long by (unfold INT_MIN, INT_MAX in *; lia).
  done.
Qed.



(** * Further properties *)

(** ** Loops *)

(** A loop whose body keeps an invariant runs to its end and ends in it. *)
Lemma for_range_invariant {St} (Inv : Z -> St -> Prop)
    (body : Z -> St -> option St) (n : nat) : forall (lo : Z) (s : St),
  (forall k s, lo <= k < lo + Z.of_nat n -> Inv k s ->
     exists s', body k s = Some s' /\ Inv (k + 1) s') ->
  Inv lo s ->
  exists s', for_range n lo body s = Some s' /\ Inv (lo + Z.of_nat n) s'.
Proof.
  induction n as [|n IH]; intros lo s Hbody Hinv.
  - exists s. by rewrite Z.add_0_r.
  - cbn [for_range].
    destruct (Hbody lo s ltac:(lia) Hinv) as (s1 & -> & Hinv1).
    cbn [mbind option_bind].
    destruct (IH (lo + 1) s1) as (s' & -> & Hinv'); [|done|].
    + intros k s2 Hk. apply Hbody. lia.
    + exists s'. split; [done|].
      by replace (lo + Z.of_nat (S n)) with (lo + 1 + Z.of_nat n) by lia.
Qed.

(** ** From dense points to sparse rows *)

Lemma main_sparse_point_gathered (X : DPointArray) (d i : Z) :
  well_sized X d -> 0 <= d <= INT_MAX -> 0 <= i < DP_GetN X ->
  exists row, main_sparse_point X d i = Some row /\ gathered X i d row.
Proof.
  intros (HN & Hlen & Hmax) Hd Hi. unfold main_sparse_point.
  destruct (for_range_invariant (gathered X i)
              (fun j row =>
                 v ← rd (DP_GetPointer X) (long_add (long_mul j (DP_GetN X)) i);
                 Some (if dne0 v
                       then row ++ [(int_of_long (long_add j 1), v)]
                       else row))
              (Z.to_nat d) 0 []) as (row & Hrow & Hinv).
  - intros j row Hj (Hsorted & Hin & Hall).
    assert (0 <= j < d) as Hjd by lia. clear Hj.
    assert (0 <= j * DP_GetN X) as Hlo by (apply Z.mul_nonneg_nonneg; lia).
    assert (j * DP_GetN X <= (d - 1) * DP_GetN X) as Hhi
      by (apply Z.mul_le_mono_nonneg_r; lia).
    assert (0 <= j * DP_GetN X + i < DP_GetN X * d) as Hoff
      by (clear - HN Hi Hjd Hlo Hhi; nia).
    assert (long_add (long_mul j (DP_GetN X)) i = j * DP_GetN X + i) as ->.
    { unfold long_add, long_mul.
      rewrite (wrap64_id (j * DP_GetN X))
        by (unfold LONG_MIN, LONG_MAX in *; lia).
      apply wrap64_id. unfold LONG_MIN, LONG_MAX in *. lia. }
    assert (int_of_long (long_add j 1) = j + 1) as ->.
    { unfold int_of_long, long_add.
      rewrite (wrap64_id (j + 1))
        by (unfold LONG_MIN, LONG_MAX, INT_MAX in *; lia).
      apply wrap32_id. unfold INT_MIN, INT_MAX in *. lia. }
    destruct (rd_is_Some (DP_GetPointer X) (j * DP_GetN X + i)) as [v Hv];
      [lia|].
    rewrite Hv. cbn [mbind option_bind]. eexists; split; [done|].
    destruct (dne0 v) eqn:Hnz.
    + split; [|split].
      * rewrite fmap_app. apply StronglySorted_app_2.
        -- intros k1 k2 (p & -> & Hp)%list_elem_of_fmap Hk2.
           apply list_elem_of_singleton in Hk2 as ->.
           destruct (Hin p Hp) as (? & _). cbn. lia.
        -- done.
        -- repeat constructor.
      * intros p [Hp | ->%list_elem_of_singleton]%elem_of_app.
        -- destruct (Hin p Hp) as (? & ? & ?). repeat split; try done; lia.
        -- cbn [fst snd]. repeat split; try lia; try done.
           unfold coordinate. by replace (j + 1 - 1) with j by lia.
      * intros j' v' Hj Hv' Hnz'. apply elem_of_app.
        destruct (decide (j' = j)) as [->|Hne].
        -- right. unfold coordinate in Hv'. rewrite Hv in Hv'.
           injection Hv' as <-. by apply list_elem_of_singleton.
        -- left. apply Hall; [lia | done | done].
    + split; [done|]. split.
      * intros p Hp. destruct (Hin p Hp) as (? & ? & ?).
        repeat split; try done; lia.
      * intros j' v' Hj Hv' Hnz'.
        destruct (decide (j' = j)) as [->|Hne].
        -- unfold coordinate in Hv'. rewrite Hv in Hv'. congruence.
        -- apply Hall; [lia | done | done].
  - split; [constructor|]. split.
    + by intros p Hp%elem_of_nil.
    + intros; lia.
  - exists row. split; [done|].
    by replace (0 + Z.of_nat (Z.to_nat d)) with d in Hinv by lia.
Qed.

(** X1. The sparse row that [main] builds for a point (lines 159-165)
    lists its pairs by strictly increasing index, every index lies in
    [1, d] and no stored value is zero. *)
Theorem main_sparse_point_sorted (X : DPointArray) (d i : Z) :
  well_sized X d -> 0 <= d <= INT_MAX -> 0 <= i < DP_GetN X ->
  exists row,
    main_sparse_point X d i = Some row /\
    StronglySorted Z.lt (row.*1) /\
    Forall (fun p => 1 <= p.1 <= d /\ dne0 p.2 = true) row.
Proof.
  intros HX Hd Hi.
  destruct (main_sparse_point_gathered X d i HX Hd Hi)
    as (row & Hrow & Hsorted & Hin & _).
  exists row. split; [done|]. split; [done|].
  apply list.Forall_forall. intros p Hp.
  destruct (Hin p Hp) as (? & ? & _). done.
Qed.

Lemma main_sparse_point_sorted_witness :
  exists row,
    main_sparse_point toy_Xtest 2 0 = Some row /\
    StronglySorted Z.lt (row.*1).
Proof.
  destruct (main_sparse_point_sorted toy_Xtest 2 0) as (row & Hrow & Hs & _).
  - repeat split; vm_compute; discriminate.
  - vm_compute. split; discriminate.
  - vm_compute. split; [discriminate | reflexivity].
  - exists row. split; [exact Hrow | exact Hs].
Defined.

(** X2. The sparse row holds exactly the nonzero coordinates of its
    point: the pair [(k, w)] is in the row if and only if [1 <= k <= d],
    coordinate [k] (1-based) of the point is [w] and [w] is not zero. *)
Theorem main_sparse_point_round_trip (X : DPointArray) (d i : Z) :
  well_sized X d -> 0 <= d <= INT_MAX -> 0 <= i < DP_GetN X ->
  exists row,
    main_sparse_point X d i = Some row /\
    forall k w,
      (k, w) ∈ row <->
      1 <= k <= d /\ coordinate X i (k - 1) = Some w /\ dne0 w = true.
Proof.
  intros HX Hd Hi.
  destruct (main_sparse_point_gathered X d i HX Hd Hi)
    as (row & Hrow & _ & Hin & Hall).
  exists row. split; [done|]. intros k w. split.
  - intros Hp. destruct (Hin _ Hp) as (? & ? & ?). done.
  - intros (Hk & Hw & Hnz).
    replace k with (k - 1 + 1) by lia. apply Hall; [lia | done | done].
Qed.

Lemma main_sparse_point_round_trip_witness :
  exists row,
    main_sparse_point toy_Xtest 2 0 = Some row /\ (2, dec 2 1) ∈ row.
Proof.
  destruct (main_sparse_point_round_trip toy_Xtest 2 0) as (row & Hrow & Hin).
  - repeat split; vm_compute; discriminate.
  - vm_compute. split; discriminate.
  - vm_compute. split; [discriminate | reflexivity].
  - exists row. split; [exact Hrow|]. apply Hin.
    split; [lia|]. split; reflexivity.
Defined.

Lemma main_sparse_points_rows (X : DPointArray) (d : Z) (acc : instances) :
  well_sized X d -> 0 <= d <= INT_MAX ->
  exists rows,
    main_sparse_points X d acc = Some (acc ++ rows) /\
    Z.of_nat (length rows) = DP_GetN X /\
    forall i, 0 <= i < DP_GetN X -> rd rows i = main_sparse_point X d i.
Proof.
  intros HX Hd. unfold main_sparse_points.
  destruct (for_range_invariant
              (fun k s => exists rows,
                 s = acc ++ rows /\ Z.of_nat (length rows) = k /\
                 forall i, 0 <= i < k -> rd rows i = main_sparse_point X d i)
              (fun i acc => row ← main_sparse_point X d i; Some (acc ++ [row]))
              (Z.to_nat (DP_GetN X)) 0 acc) as (s & Hs & rows & -> & Hlen & Hrd).
  - intros k s Hk (rows & -> & Hlen & Hrd).
    destruct HX as (HN & HX').
    destruct (main_sparse_point_gathered X d k) as (row & Hrow & _);
      [by split | done | lia |].
    rewrite Hrow. cbn [mbind option_bind]. eexists; split; [done|].
    exists (rows ++ [row]). split; [by rewrite app_assoc|]. split.
    + rewrite length_app. cbn [length]. lia.
    + intros i Hi. rewrite rd_app. case_decide.
      * apply Hrd. lia.
      * replace (i - Z.of_nat (length rows)) with 0 by lia.
        replace i with k by lia. by rewrite Hrow.
  - exists []. split; [by rewrite app_nil_r|]. split; [done|]. intros; lia.
  - destruct HX as (HN & _). exists rows. split; [done|]. split; [lia|].
    intros i Hi. apply Hrd. lia.
Qed.

(** X3. On well-sized dense arrays the conversion of lines 155-177
    succeeds and yields one sparse row per point, the training points
    first and the testing points after them, each in its order: row [i]
    is training point [i] and row [Xtrain.GetN() + i] is testing point
    [i]. *)
Theorem main_instances_old_order (Xtrain Xtest : DPointArray) (d : Z) :
  well_sized Xtrain d -> well_sized Xtest d -> 0 <= d <= INT_MAX ->
  exists instances_old,
    main_instances_old Xtrain Xtest d = Some instances_old /\
    Z.of_nat (length instances_old) = DP_GetN Xtrain + DP_GetN Xtest /\
    (forall i, 0 <= i < DP_GetN Xtrain ->
       rd instances_old i = main_sparse_point Xtrain d i) /\
    (forall i, 0 <= i < DP_GetN Xtest ->
       rd instances_old (DP_GetN Xtrain + i) = main_sparse_point Xtest d i).
Proof.
  intros Htrain Htest Hd. unfold main_instances_old.
  destruct (main_sparse_points_rows Xtrain d [] Htrain Hd)
    as (rows1 & -> & Hlen1 & Hrd1).
  cbn [mbind option_bind app].
  destruct (main_sparse_points_rows Xtest d rows1 Htest Hd)
    as (rows2 & -> & Hlen2 & Hrd2).
  exists (rows1 ++ rows2). split; [done|]. split; [|split].
  - rewrite length_app. lia.
  - intros i Hi. rewrite rd_app, decide_True by lia. by apply Hrd1.
  - intros i Hi. rewrite rd_app, decide_False by lia.
    rewrite <- Hlen1. replace (Z.of_nat (length rows1) + i - Z.of_nat (length rows1))
      with i by lia.
    by apply Hrd2.
Qed.

Lemma main_instances_old_order_witness :
  exists instances_old,
    main_instances_old toy_Xtrain toy_Xtest 2 = Some instances_old /\
    Z.of_nat (length instances_old) = 2.
Proof.
  destruct (main_instances_old_order toy_Xtrain toy_Xtest 2)
    as (inst & Hinst & Hlen & _).
  - repeat split; vm_compute; discriminate.
  - repeat split; vm_compute; discriminate.
  - vm_compute. split; discriminate.
  - exists inst. split; [exact Hinst | exact Hlen].
Defined.

(** ** What the parser needs *)

Section CommandLineNeeds.

Variable atoi : string -> Z.
Variable atof : string -> double.

Lemma next_arg_Some (argv : list string) (idx idx' : Z) (s : string) :
  Z.of_nat (length argv) <= INT_MAX ->
  next_arg argv idx = Some (s, idx') ->
  0 <= idx < Z.of_nat (length argv) /\ idx' = idx + 1.
Proof.
  intros Hargc. unfold next_arg.
  destruct (rd argv idx) as [s'|] eqn:Hs; [|done].
  cbn [mbind option_bind]. intros [= -> <-].
  pose proof (rd_Some_lt _ _ _ Hs) as Hlt. split; [done|].
  apply wrap64_id. unfold LONG_MIN, LONG_MAX, INT_MAX in *. lia.
Qed.

Lemma read_doubles_Some (argv : list string) (n : nat) :
  forall (idx idx' : Z) (l : list double),
  Z.of_nat (length argv) <= INT_MAX ->
  0 <= idx <= Z.of_nat (length argv) ->
  read_doubles atof argv n idx = Some (l, idx') ->
  length l = n /\ idx' = idx + Z.of_nat n /\ idx' <= Z.of_nat (length argv).
Proof.
  induction n as [|n IH]; intros idx idx' l Hargc Hidx.
  - cbn. intros [= <- <-]. repeat split; lia.
  - cbn [read_doubles].
    destruct (next_arg argv idx) as [[s i1]|] eqn:Hs; [|done].
    cbn [mbind option_bind fst snd].
    destruct (next_arg_Some _ _ _ _ Hargc Hs) as [Hlt ->].
    destruct (read_doubles atof argv n (idx + 1)) as [[l' i2]|] eqn:Hl; [|done].
    cbn [mbind option_bind fst snd]. intros [= <- <-].
    assert (0 <= idx + 1 <= Z.of_nat (length argv)) as Hb by lia.
    destruct (IH _ _ _ Hargc Hb Hl) as (Hlen & -> & Hle).
    cbn [length]. repeat split; lia.
Qed.

End CommandLineNeeds.

(** X4. The parser never checks [argc].  Whenever it gets through, [argv]
    held at least [12 + Num_lambda + Num_sigma] entries (a count that is
    not positive standing for 0), all read up to the final [idx], and
    [List_lambda] and [List_sigma] have as many values as their counts
    say. *)
Theorem main_parse_needs_arguments
    (atoi : string -> Z) (atof : string -> double)
    (argv : list string) (a : Args) (idx : Z) :
  Z.of_nat (length argv) <= INT_MAX ->
  main_parse atoi atof argv = Some (a, idx) ->
  length (List_lambda a) = Z.to_nat (Num_lambda a) /\
  length (List_sigma a) = Z.to_nat (Num_sigma a) /\
  idx = 12 + Z.of_nat (length (List_lambda a))
           + Z.of_nat (length (List_sigma a)) /\
  idx <= Z.of_nat (length argv).
Proof.
  intros Hargc. unfold main_parse.
  repeat
    (match goal with
     | |- context [next_arg argv ?i] =>
         let H := fresh "Harg" in
         destruct (next_arg argv i) as [[? ?]|] eqn:H; [|done];
         destruct (next_arg_Some _ _ _ _ Hargc H) as [? ->];
         cbn [mbind option_bind fst snd]
     | |- context [read_doubles atof argv ?n ?i] =>
         let H := fresh "Hlist" in
         destruct (read_doubles atof argv n i) as [[? ?]|] eqn:H; [|done];
         let Hb := fresh "Hb" in
         assert (0 <= i <= Z.of_nat (length argv)) as Hb by lia;
         destruct (read_doubles_Some atof _ _ _ _ _ Hargc Hb H)
           as (? & -> & ?);
         cbn [mbind option_bind fst snd]
     end).
  intros [= <- <-]. cbn [List_lambda List_sigma Num_lambda Num_sigma].
  repeat split; try done; lia.
Qed.

Lemma main_parse_needs_arguments_witness :
  14 <= Z.of_nat (length ["prog"; "1"; "train"; "test"; "3"; "2"; "4"; "-1";
                          "2"; "5"; "7"; "10"; "0"; "0"]%string).
Proof.
  pose proof (main_parse_needs_arguments decimal (fun s => of_long (decimal s))
      ["prog"; "1"; "train"; "test"; "3"; "2"; "4"; "-1"; "2"; "5"; "7";
       "10"; "0"; "0"]%string
      (mkArgs 1 "train" "test" 3 2 4 (-1) [] 2 [of_long 5; of_long 7]
         10 (of_long 0) false)
      14) as H.
  destruct H as (_ & _ & _ & Hle).
  - vm_compute. discriminate.
  - reflexivity.
  - exact Hle.
Defined.

(** ** The column dimension and the fill on rows of any length *)

Lemma main_dd_loop_is_Some (r : Z) (rows : instances) : forall dd0 : Z,
  INT_MIN < r <= INT_MAX ->
  is_Some (main_dd_loop rows r dd0) <->
  Forall (fun row => 1 <= r <= Z.of_nat (length row)) rows.
Proof.
  intros dd0 Hr. revert dd0.
  assert (int_sub r 1 = r - 1) as Hsub.
  { apply wrap32_id. unfold INT_MIN, INT_MAX in *. lia. }
  induction rows as [|row rows IH]; intros dd0.
  - cbn. split; [constructor | by eexists].
  - cbn [main_dd_loop]. rewrite Hsub, list.Forall_cons.
    destruct (rd row (r - 1)) as [p|] eqn:Hp; cbn [mbind option_bind].
    + rewrite IH. pose proof (rd_Some_lt _ _ _ Hp). split.
      * intros H'. split; [lia | done].
      * by intros [_ H'].
    + split; [by intros [? ?]|]. intros [Hlen _]. exfalso.
      destruct (rd_is_Some row (r - 1)) as [p Hp']; [lia|]. congruence.
Qed.

(** X5. The loop that finds the column dimension reads position [r-1] of
    every row and nothing else of it: it gets through exactly when [r >= 1]
    and every row has at least [r] pairs (longer rows are accepted), and
    a row with fewer pairs is read out of range. *)
Theorem main_dd_needs_r_pairs (instances_new : instances) (r : Z) :
  INT_MIN < r <= INT_MAX ->
  is_Some (main_dd instances_new r) <->
  Forall (fun row => 1 <= r <= Z.of_nat (length row)) instances_new.
Proof. intros Hr. by apply main_dd_loop_is_Some. Qed.

Lemma main_dd_needs_r_pairs_witness :
  main_dd [[(1, unit_weight); (5, unit_weight)]; [(2, unit_weight)]] 2 = None.
Proof.
  destruct (main_dd [[(1, unit_weight); (5, unit_weight)];
                     [(2, unit_weight)]] 2) as [dd|] eqn:Hdd; [|reflexivity].
  exfalso.
  pose proof (proj1 (main_dd_needs_r_pairs
                       [[(1, unit_weight); (5, unit_weight)];
                        [(2, unit_weight)]] 2
                       ltac:(vm_compute; split; [reflexivity|discriminate]))
                (ex_intro _ dd Hdd)) as H.
  apply list.Forall_cons in H as [_ H].
  apply list.Forall_cons in H as [[_ H] _]. cbn in H. lia.
Defined.

Lemma main_fill_row_overrun (row : list (Z * double)) :
  forall (ind : Z) (A : SPointArray),
  0 <= ind <= Z.of_nat (length (GetPointerIdx A)) ->
  Z.of_nat (length (GetPointerIdx A)) <= LONG_MAX ->
  length (GetPointerX A) = length (GetPointerIdx A) ->
  Z.of_nat (length (GetPointerIdx A)) < ind + Z.of_nat (length row) ->
  main_fill_row row ind A = None.
Proof.
  induction row as [|p row IH]; intros ind A Hind Hmax HX Hover.
  - cbn [length] in Hover. lia.
  - cbn [main_fill_row length] in *.
    destruct (decide (ind < Z.of_nat (length (GetPointerIdx A)))) as [Hlt|Hge].
    + rewrite !wr_Some by lia. cbn [mbind option_bind].
      assert (long_add ind 1 = ind + 1) as ->.
      { apply wrap64_id. unfold LONG_MIN, LONG_MAX in *. lia. }
      apply IH; cbn; rewrite ?length_insert; lia.
    + assert (wr (GetPointerIdx A) ind (stored_col p) = None) as ->
        by (unfold wr; by rewrite decide_False by lia).
      reflexivity.
Qed.

Lemma main_fill_rows_any (r : Z) (rows : instances) :
  forall (i ind : Z) (A : SPointArray),
  0 <= r -> 0 <= i -> 0 <= ind ->
  i + Z.of_nat (length rows) <= Z.of_nat (length (GetPointerStart A)) ->
  ind + Z.of_nat (length (concat rows)) <= Z.of_nat (length (GetPointerIdx A)) ->
  ind + Z.of_nat (length (concat rows)) <= Z.of_nat (length (GetPointerX A)) ->
  ind + Z.of_nat (length (concat rows)) <= LONG_MAX ->
  r * (i + Z.of_nat (length rows)) <= LONG_MAX ->
  (i <> 0 -> rd (GetPointerStart A) (i - 1) = Some ((i - 1) * r)) ->
  exists A',
    main_fill_rows rows i r ind A =
      Some (i + Z.of_nat (length rows),
            ind + Z.of_nat (length (concat rows)), A') /\
    (SP_GetN A', SP_GetD A', SP_nnz A') = (SP_GetN A, SP_GetD A, SP_nnz A) /\
    length (GetPointerStart A') = length (GetPointerStart A) /\
    length (GetPointerIdx A') = length (GetPointerIdx A) /\
    length (GetPointerX A') = length (GetPointerX A) /\
    (forall k, rd (GetPointerStart A') k =
       if decide (i <= k < i + Z.of_nat (length rows)) then Some (k * r)
       else rd (GetPointerStart A) k) /\
    (forall k, rd (GetPointerIdx A') k =
       if decide (ind <= k < ind + Z.of_nat (length (concat rows)))
       then stored_col <$> rd (concat rows) (k - ind)
       else rd (GetPointerIdx A) k) /\
    (forall k, rd (GetPointerX A') k =
       if decide (ind <= k < ind + Z.of_nat (length (concat rows)))
       then snd <$> rd (concat rows) (k - ind)
       else rd (GetPointerX A) k).
Proof.
  induction rows as [|row rows IH];
    intros i ind A Hr Hi Hind Hs Hx HX Hmax Hir Hprev.
  - exists A. cbn [main_fill_rows concat length]. rewrite !Z.add_0_r.
    repeat split; try done; intros k; by rewrite decide_False by lia.
  - cbn [main_fill_rows concat length] in *. rewrite length_app in *.
    assert (exists s, (if decide (i = 0) then wr (GetPointerStart A) i 0
              else prev ← rd (GetPointerStart A) (i - 1);
                   wr (GetPointerStart A) i (long_add prev r)) = Some s /\
              s = <[Z.to_nat i := i * r]> (GetPointerStart A))
      as (s & -> & Hs').
    { case_decide as Hi0.
      - subst i. rewrite wr_Some by lia. eauto.
      - rewrite Hprev by done. cbn [mbind option_bind].
        rewrite wr_Some by lia. eexists; split; [done|].
        do 2 f_equal. unfold long_add. rewrite wrap64_id.
        + lia.
        + unfold LONG_MIN, LONG_MAX in *. nia. }
    cbn [mbind option_bind].
    edestruct (main_fill_row_spec row ind (set_start A s))
      as (A1 & -> & Hn1 & Hst1 & Hlx1 & HlX1 & Hix1 & HXv1).
    1-4: cbn; lia.
    cbn [mbind option_bind fst snd].
    cbn in Hn1, Hst1, Hlx1, HlX1.
    edestruct (IH (i + 1) (ind + Z.of_nat (length row)) A1)
      as (A' & -> & Hn & Hls & Hlx & HlX & Hst & Hix & HXv);
      [done | | | | | | | | | exists A'; repeat split].
    1-7: rewrite ?Hst1, ?Hlx1, ?HlX1, ?Hs', ?length_insert; nia.
    + intros _. rewrite Hst1, Hs', rd_insert by lia.
      rewrite decide_True by lia. f_equal. lia.
    + do 3 f_equal; lia.
    + by rewrite Hn, Hn1.
    + by rewrite Hls, Hst1, Hs', length_insert.
    + by rewrite Hlx, Hlx1.
    + by rewrite HlX, HlX1.
    + intros k. rewrite Hst, Hst1, Hs', rd_insert by lia.
      repeat case_decide; subst; try lia; done.
    + intros k. rewrite Hix, Hix1. cbn. rewrite rd_app.
      repeat case_decide; try lia; try done; do 2 f_equal; lia.
    + intros k. rewrite HXv, HXv1. cbn. rewrite rd_app.
      repeat case_decide; try lia; try done; do 2 f_equal; lia.
Qed.

Lemma main_fill_rows_overrun (r : Z) (rows : instances) :
  forall (i ind : Z) (A : SPointArray),
  0 <= ind <= Z.of_nat (length (GetPointerIdx A)) ->
  Z.of_nat (length (GetPointerIdx A)) <= LONG_MAX ->
  length (GetPointerX A) = length (GetPointerIdx A) ->
  Z.of_nat (length (GetPointerIdx A)) < ind + Z.of_nat (length (concat rows)) ->
  main_fill_rows rows i r ind A = None.
Proof.
  induction rows as [|row rows IH]; intros i ind A Hind Hmax HX Hover.
  - cbn in Hover. lia.
  - cbn [main_fill_rows concat] in *. rewrite length_app in Hover.
    destruct (if decide (i = 0) then wr (GetPointerStart A) i 0
              else prev ← rd (GetPointerStart A) (i - 1);
                   wr (GetPointerStart A) i (long_add prev r)) as [s|];
      [|done].
    cbn [mbind option_bind].
    destruct (decide (ind + Z.of_nat (length row)
                      <= Z.of_nat (length (GetPointerIdx A)))) as [Hfit|Hnofit].
    + edestruct (main_fill_row_spec row ind (set_start A s))
        as (A1 & -> & _ & _ & Hlx1 & HlX1 & _).
      1-4: cbn; lia.
      cbn [mbind option_bind fst snd]. cbn in Hlx1, HlX1.
      apply IH; rewrite ?Hlx1, ?HlX1; lia.
    + rewrite main_fill_row_overrun; [done | done | done | done | ].
      cbn. lia.
Qed.

(** X6. The fill of the joint store never compares a row's length with
    [r]: with [r >= 0] and one row per point it gets through exactly when
    all rows together hold at most [nnz = r * N] pairs, and writes past the
    index array otherwise. *)
Theorem main_fill_accepts_up_to_nnz
    (instances_new : instances) (r Xtrain_N Xtest_N dd : Z) :
  0 <= r ->
  Z.of_nat (length instances_new) = long_add Xtrain_N Xtest_N ->
  r * Z.of_nat (length instances_new) <= LONG_MAX ->
  is_Some (main_fill instances_new r Xtrain_N Xtest_N dd) <->
  Z.of_nat (length (concat instances_new))
    <= r * Z.of_nat (length instances_new).
Proof.
  intros Hr HN Hfit. unfold main_fill. rewrite <- HN.
  set (N := Z.of_nat (length instances_new)) in *.
  assert (long_mul r N = r * N) as ->.
  { apply wrap64_id. unfold LONG_MIN, LONG_MAX in *. nia. }
  split.
  - intros Hsome.
    destruct (decide (Z.of_nat (length (concat instances_new)) <= r * N))
      as [|Hover]; [done|]. exfalso.
    rewrite (main_fill_rows_overrun r instances_new 0 0) in Hsome.
    + by destruct Hsome.
    + cbn. lia.
    + cbn. rewrite length_replicate. nia.
    + cbn. by rewrite !length_replicate.
    + cbn. rewrite length_replicate. nia.
  - intros Htotal.
    edestruct (main_fill_rows_any r instances_new 0 0
                 (SPointArray_Init N dd (r * N)))
      as (A & -> & _ & Hls & _); [done | done | done | | | | | | done | ].
    1-5: cbn; rewrite ?length_replicate; fold N; nia.
    cbn [mbind option_bind fst snd]. cbn in Hls.
    rewrite length_replicate in Hls.
    rewrite Z.add_0_l. rewrite wr_Some by (fold N; lia). by eexists.
Qed.

Lemma main_fill_accepts_up_to_nnz_witness :
  main_fill [[(1, unit_weight); (5, unit_weight); (6, unit_weight)];
             [(2, unit_weight); (4, unit_weight)]] 2 1 1 6 = None.
Proof.
  destruct (main_fill [[(1, unit_weight); (5, unit_weight); (6, unit_weight)];
                       [(2, unit_weight); (4, unit_weight)]] 2 1 1 6)
    as [S|] eqn:HS; [|reflexivity].
  exfalso.
  pose proof (proj1 (main_fill_accepts_up_to_nnz
                       [[(1, unit_weight); (5, unit_weight); (6, unit_weight)];
                        [(2, unit_weight); (4, unit_weight)]] 2 1 1 6
                       ltac:(lia) ltac:(reflexivity)
                       ltac:(vm_compute; discriminate))
                (ex_intro _ S HS)) as H.
  cbn in H. lia.
Defined.

(** X7. Whenever the fill gets through, the offsets it leaves are
    [mystart[i] = i * r] for every [i <= N], whatever the rows' lengths
    are, and the pairs of all rows sit one after the other from position
    0 of the index and value arrays.  A row with fewer than [r] pairs thus
    shifts the pairs of every later row out of the range its offsets
    give. *)
Theorem main_fill_offsets_ignore_row_lengths
    (instances_new : instances) (r Xtrain_N Xtest_N dd : Z) :
  0 <= r ->
  Z.of_nat (length instances_new) = long_add Xtrain_N Xtest_N ->
  r * Z.of_nat (length instances_new) <= LONG_MAX ->
  Z.of_nat (length (concat instances_new))
    <= r * Z.of_nat (length instances_new) ->
  exists S,
    main_fill instances_new r Xtrain_N Xtest_N dd = Some S /\
    (forall i, 0 <= i <= Z.of_nat (length instances_new) ->
       rd (GetPointerStart S) i = Some (i * r)) /\
    take (length (concat instances_new)) (GetPointerIdx S)
      = stored_col <$> concat instances_new /\
    take (length (concat instances_new)) (GetPointerX S)
      = snd <$> concat instances_new.
Proof.
  intros Hr HN Hfit Htotal. unfold main_fill. rewrite <- HN.
  set (N := Z.of_nat (length instances_new)) in *.
  assert (long_mul r N = r * N) as ->.
  { apply wrap64_id. unfold LONG_MIN, LONG_MAX in *. nia. }
  edestruct (main_fill_rows_any r instances_new 0 0
               (SPointArray_Init N dd (r * N)))
    as (A & -> & _ & Hls & Hlx & HlX & Hst & Hix & HXv);
    [done | done | done | | | | | | done | ].
  1-5: cbn; rewrite ?length_replicate; fold N; nia.
  cbn [mbind option_bind fst snd].
  cbn [SPointArray_Init GetPointerStart GetPointerIdx GetPointerX]
    in Hls, Hlx, HlX, Hst, Hix, HXv.
  rewrite length_replicate in Hls. rewrite length_replicate in Hlx.
  rewrite length_replicate in HlX. fold N in Hst.
  rewrite Z.add_0_l. rewrite wr_Some by lia. cbn [mbind option_bind].
  eexists; split; [done|]. cbn. split; [|split].
  - intros i Hi. rewrite rd_insert by lia. case_decide as Hi'.
    + subst i. f_equal. lia.
    + rewrite Hst. by rewrite decide_True by lia.
  - apply rd_ext.
    + rewrite length_take, length_fmap. lia.
    + intros k Hk. rewrite length_take in Hk.
      unfold rd at 1. rewrite decide_True by lia.
      rewrite lookup_take_lt by lia.
      pose proof (Hix k) as Hk'. unfold rd at 1 in Hk'.
      rewrite decide_True in Hk' by lia. rewrite Hk', rd_fmap.
      rewrite decide_True by lia. by rewrite Z.sub_0_r.
  - apply rd_ext.
    + rewrite length_take, length_fmap. lia.
    + intros k Hk. rewrite length_take in Hk.
      unfold rd at 1. rewrite decide_True by lia.
      rewrite lookup_take_lt by lia.
      pose proof (HXv k) as Hk'. unfold rd at 1 in Hk'.
      rewrite decide_True in Hk' by lia. rewrite Hk', rd_fmap.
      rewrite decide_True by lia. by rewrite Z.sub_0_r.
Qed.

Lemma main_fill_offsets_ignore_row_lengths_witness :
  exists S,
    main_fill [[(1, unit_weight)]; [(2, unit_weight); (4, unit_weight)]]
      2 1 1 4 = Some S /\
    rd (GetPointerStart S) 1 = Some 2 /\
    take 3 (GetPointerIdx S) = [0; 1; 3].
Proof.
  destruct (main_fill_offsets_ignore_row_lengths
              [[(1, unit_weight)]; [(2, unit_weight); (4, unit_weight)]]
              2 1 1 4) as (S & HS & Hst & Hix & _).
  - lia.
  - reflexivity.
  - vm_compute. discriminate.
  - vm_compute. discriminate.
  - exists S. split; [exact HS|]. split.
    + apply (Hst 1). split; [lia | vm_compute; discriminate].
    + exact Hix.
Defined.

(** ** More on the binary scorer *)

Lemma dmul_comm (x y : double) : dmul x y = dmul y x.
Proof.
  destruct x, y; cbn [dmul]; try done.
  by rewrite Qcmult_comm.
Qed.

Lemma filter_all_length {A} (P : A -> Prop) `{!forall x, Decision (P x)}
    (l : list A) :
  length (filter P l) = length l <-> Forall P l.
Proof.
  induction l as [|x l IH].
  - split; [constructor | done].
  - rewrite filter_cons, list.Forall_cons.
    pose proof (length_filter P l) as Hle. case_decide as HP; cbn [length].
    + rewrite <- IH. split; [intros [= ?]; by split | intros [_ ->]; done].
    + split; [lia | tauto].
Qed.

Lemma count_true_full (test : Z -> bool) (n : Z) :
  0 <= n ->
  count_true test n = n <-> forall i, 0 <= i < n -> test i = true.
Proof.
  intros Hn. unfold count_true.
  pose proof (filter_all_length (fun i => Is_true (test i)) (seqZ 0 n)) as H.
  rewrite length_seqZ in H. rewrite list.Forall_forall in H. split.
  - intros Hc i Hi. apply Is_true_true. apply H; [lia|].
    apply elem_of_seqZ. lia.
  - intros Hall. assert (length (filter (fun i => Is_true (test i)) (seqZ 0 n))
                         = Z.to_nat n) as ->; [|lia].
    apply H. intros i Hi%elem_of_seqZ. apply Is_true_true, Hall. lia.
Qed.

Lemma percentage_full (c n : Z) :
  0 < n -> percentage c n = Qc_of_Z 100 <-> c = n.
Proof.
  intros Hn. unfold percentage.
  assert (Qc_of_Z n <> 0%Qc) as Hn0.
  { rewrite <- Z2Qc_inj_0. intros H%Z2Qc_inj. lia. }
  assert (Qc_of_Z 100 <> 0%Qc) as H100.
  { rewrite <- Z2Qc_inj_0. intros H%Z2Qc_inj. lia. }
  split.
  - intros H. apply Z2Qc_inj.
    assert (Qc_of_Z c / Qc_of_Z n = 1)%Qc as H1.
    { rewrite <- (Qcmult_1_r (Qc_of_Z 100)) in H at 2.
      apply (f_equal (fun q => / Qc_of_Z 100 * q)%Qc) in H.
      rewrite !Qcmult_assoc, Qcmult_inv_l, !Qcmult_1_l in H by done. done. }
    apply (f_equal (fun q => q * Qc_of_Z n)%Qc) in H1.
    unfold Qcdiv in H1.
    rewrite <- Qcmult_assoc, Qcmult_inv_l, Qcmult_1_r, Qcmult_1_l in H1 by done.
    done.
  - intros ->. unfold Qcdiv. rewrite Qcmult_inv_r by done. ring.
Qed.

(** X8. The binary scorer does not tell truth from prediction: swapping
    its two vectors leaves the outcome unchanged, error line included. *)
Theorem Performance_binary_symmetric
    (Subtract : DVector -> DVector -> DVector) (Norm2 : DVector -> double)
    (y1 y2 : DVector) :
  Performance Subtract Norm2 y1 y2 2 = Performance Subtract Norm2 y2 y1 2.
Proof.
  destruct (decide (length y1 = length y2)) as [Hlen|Hne].
  - rewrite !Performance_binary by done. unfold DV_GetN. rewrite Hlen.
    do 4 f_equal. apply count_true_ext. intros i _.
    unfold sign_test. by rewrite dmul_comm.
  - unfold Performance, DV_GetN.
    rewrite !decide_True by lia. done.
Qed.






(** ** More on label recoding and the multiclass scorer *)

Lemma ConvertYtrain_entry (ytrain : DVector) (NumClasses j i : Z) :
  0 <= j < DV_GetN ytrain -> 0 <= i < NumClasses ->
  DM_entry (ConvertYtrain ytrain NumClasses) j i
  = if decide (to_int (elt ytrain j) = i) then Fin 1%Qc else Fin (-1)%Qc.
Proof.
  intros Hj Hi.
  destruct (ConvertYtrain_columns ytrain (seqZ 0 NumClasses)
              (DMatrix_Init (DV_GetN ytrain) NumClasses)) as (_ & _ & Hentry).
  fold (ConvertYtrain ytrain NumClasses) in Hentry.
  rewrite Hentry, decide_True by (apply elem_of_seqZ; lia).
  destruct (rd_is_Some ytrain j Hj) as [v Hv].
  rewrite (elt_recode i j ytrain v Hv). unfold elt. by rewrite Hv.
Qed.

Lemma ConvertYtrain_dims (ytrain : DVector) (NumClasses : Z) :
  DM_GetM (ConvertYtrain ytrain NumClasses) = DV_GetN ytrain /\
  DM_GetN (ConvertYtrain ytrain NumClasses) = NumClasses.
Proof.
  destruct (ConvertYtrain_columns ytrain (seqZ 0 NumClasses)
              (DMatrix_Init (DV_GetN ytrain) NumClasses)) as (HM & HN & _).
  split; [exact HM | exact HN].
Qed.

(** X11. [ConvertYtrain] accepts any label vector: whatever the values,
    every entry of the recoded matrix is +1 or -1, entry [(j, i)] being +1
    exactly when label [j] truncated to an [int] is [i].  A label whose
    truncation falls outside [0, NumClasses) therefore yields a row of
    -1 only, without any report. *)
Theorem ConvertYtrain_never_rejects (ytrain : DVector) (NumClasses : Z) :
  let Ytrain := ConvertYtrain ytrain NumClasses in
  DM_GetM Ytrain = DV_GetN ytrain /\
  DM_GetN Ytrain = NumClasses /\
  forall j, 0 <= j < DV_GetN ytrain ->
    (forall i, 0 <= i < NumClasses ->
       (DM_entry Ytrain j i = Fin 1%Qc /\ to_int (elt ytrain j) = i) \/
       (DM_entry Ytrain j i = Fin (-1)%Qc /\ to_int (elt ytrain j) <> i)) /\
    (~ 0 <= to_int (elt ytrain j) < NumClasses ->
     forall i, 0 <= i < NumClasses -> DM_entry Ytrain j i = Fin (-1)%Qc).
Proof.
  intros Ytrain. destruct (ConvertYtrain_dims ytrain NumClasses) as [HM HN].
  split; [done|]. split; [done|]. intros j Hj. split.
  - intros i Hi. subst Ytrain. rewrite ConvertYtrain_entry by done.
    case_decide; [by left | by right].
  - intros Hout i Hi. subst Ytrain. rewrite ConvertYtrain_entry by done.
    rewrite decide_False; [done|]. lia.
Qed.

Lemma predicted_class_of_recoding (labels : list Z) (NumClasses j k : Z) :
  0 < NumClasses <= INT_MAX ->
  Forall (fun k => 0 <= k < NumClasses) labels ->
  rd labels j = Some k ->
  predicted_class (ConvertYtrain (of_long <$> labels) NumClasses) j = k.
Proof.
  intros HNC Hlabels Hk.
  set (Y := ConvertYtrain (of_long <$> labels) NumClasses).
  destruct (ConvertYtrain_dims (of_long <$> labels) NumClasses) as [HM HN].
  fold Y in HM, HN.
  pose proof (rd_Some_lt _ _ _ Hk) as Hj.
  assert (0 <= k < NumClasses) as Hkr.
  { rewrite list.Forall_forall in Hlabels. apply Hlabels.
    unfold rd in Hk. case_decide; [|done]. by eapply list_elem_of_lookup_2. }
  assert (forall i, 0 <= i < NumClasses ->
            DM_entry Y j i = if decide (k = i) then Fin 1%Qc else Fin (-1)%Qc)
    as Hentry.
  { intros i Hi. subst Y. rewrite ConvertYtrain_entry; try done.
    - unfold elt. rewrite rd_fmap, Hk.
      cbn [fmap option_fmap option_map default from_option id].
      by rewrite to_int_of_long by (unfold INT_MIN, INT_MAX in *; lia).
    - unfold DV_GetN. rewrite length_fmap. lia. }
  destruct (predicted_class_first_maximum Y j) as (Hc & Hmax & _).
  - lia.
  - intros i Hi. rewrite HN in Hi. rewrite Hentry by done. by case_decide.
  - rewrite HN in Hc, Hmax.
    specialize (Hmax k Hkr). rewrite !Hentry in Hmax by done.
    rewrite decide_True in Hmax by done.
    destruct (decide (k = predicted_class Y j)) as [Heq|Hne]; [done|].
    discriminate Hmax.
Qed.

(** X12. Recoding and scoring undo each other: on integer labels taken
    from [0, NumClasses), the class that the matrix scorer predicts from
    row [j] of the recoded matrix is label [j] again, so that scoring the
    recoded labels against the labels themselves gives exactly 100. *)
Theorem ConvertYtrain_then_Performance_is_100 (labels : list Z) (NumClasses : Z) :
  2 < NumClasses <= INT_MAX ->
  Forall (fun k => 0 <= k < NumClasses) labels ->
  labels <> [] ->
  let Ytrain := ConvertYtrain (of_long <$> labels) NumClasses in
  (forall j k, rd labels j = Some k -> predicted_class Ytrain j = k) /\
  Performance_DMatrix (of_long <$> labels) Ytrain NumClasses
    = ([], Fin (Qc_of_Z 100)).
Proof.
  intros HNC Hlabels Hne Ytrain.
  assert (forall j k, rd labels j = Some k -> predicted_class Ytrain j = k)
    as Hpred.
  { intros j k Hk. apply predicted_class_of_recoding; try done. lia. }
  split; [exact Hpred|].
  destruct (ConvertYtrain_dims (of_long <$> labels) NumClasses) as [HM HN].
  fold Ytrain in HM, HN.
  rewrite Performance_DMatrix_tally by done.
  assert (0 < DV_GetN (of_long <$> labels)) as Hn.
  { unfold DV_GetN. rewrite length_fmap. destruct labels; [done|].
    cbn [length]. lia. }
  rewrite percent_of_count by done. do 2 f_equal.
  apply percentage_full; [done|].
  apply count_true_full; [lia|]. intros j Hj.
  unfold DV_GetN in Hj. rewrite length_fmap in Hj.
  destruct (rd_is_Some labels j Hj) as [k Hk].
  apply bool_decide_eq_true. rewrite (Hpred j k Hk).
  unfold elt. rewrite rd_fmap, Hk.
  cbn [fmap option_fmap option_map default from_option id].
  apply to_int_of_long.
  rewrite list.Forall_forall in Hlabels.
  assert (0 <= k < NumClasses).
  { apply Hlabels. unfold rd in Hk. case_decide; [|done].
    by eapply list_elem_of_lookup_2. }
  unfold INT_MIN, INT_MAX in *. lia.
Qed.

Lemma ConvertYtrain_then_Performance_is_100_witness :
  Performance_DMatrix (of_long <$> [0; 2; 1; 2])
    (ConvertYtrain (of_long <$> [0; 2; 1; 2]) 3) 3
  = ([], Fin (Qc_of_Z 100)).
Proof.
  apply (ConvertYtrain_then_Performance_is_100 [0; 2; 1; 2] 3).
  - vm_compute. split; [reflexivity | discriminate].
  - repeat constructor; lia.
  - discriminate.
Defined.

(** X13. Whenever its size checks pass and there is at least one row, the
    matrix scorer returns a finite percentage between 0 and 100; with no
    row at all it prints nothing and returns NaN. *)
Theorem Performance_DMatrix_range :
  (forall (ytest_truth : DVector) (Ytest_predict : DMatrix) (NumClasses : Z),
     2 < NumClasses <= INT_MAX ->
     DV_GetN ytest_truth = DM_GetM Ytest_predict ->
     DM_GetN Ytest_predict = NumClasses ->
     ytest_truth <> [] ->
     exists q,
       Performance_DMatrix ytest_truth Ytest_predict NumClasses = ([], Fin q) /\
       (0 <= q)%Qc /\ (q <= Qc_of_Z 100)%Qc) /\
  (forall (Ytest_predict : DMatrix) (NumClasses : Z),
     2 < NumClasses ->
     DM_GetM Ytest_predict = 0 ->
     DM_GetN Ytest_predict = NumClasses ->
     Performance_DMatrix [] Ytest_predict NumClasses = ([], NaN)).
Proof.
  split.
  - intros truth Y NumClasses HNC HM HN Hne.
    assert (0 < DV_GetN truth) as Hn.
    { unfold DV_GetN. destruct truth; [done|]. cbn [length]. lia. }
    rewrite Performance_DMatrix_tally by done.
    rewrite percent_of_count by done. eexists. split; [done|].
    apply percentage_range; [|done]. apply count_true_bounds. lia.
  - intros Y NumClasses HNC HM HN. unfold Performance_DMatrix.
    change (DV_GetN []) with 0.
    rewrite decide_False by (rewrite HM, HN; tauto).
    rewrite decide_False by lia. reflexivity.
Qed.

Lemma Performance_DMatrix_range_witness :
  exists q,
    Performance_DMatrix multiclass_truth multiclass_scores 3 = ([], Fin q) /\
    (q <= Qc_of_Z 100)%Qc.
Proof.
  destruct Performance_DMatrix_range as [Hrange _].
  destruct (Hrange multiclass_truth multiclass_scores 3)
    as (q & Hq & _ & Hle).
  - vm_compute. split; [reflexivity | discriminate].
  - reflexivity.
  - reflexivity.
  - discriminate.
  - exists q. split; [exact Hq | exact Hle].
Defined.

(** ** The sweep, combination by combination *)

(** X14. The combinations of the sweep do not influence one another: the
    whole record of a combination, its score included, is the one that
    combination produces when it is run alone straight after
    [srandom(0)], whatever the other values of the grid are and wherever
    the combination stands in it. *)
Theorem main_sweep_combinations_alone
    (rng : Type) (srandom : Z -> rng)
    (random_binning_feature :
       Z -> Z -> instances -> double -> rng -> instances * rng)
    (fit_and_score : Args -> double -> double -> instances -> rng -> double * rng)
    (a : Args) (Xtrain Xtest : DPointArray) (instances_old : instances)
    (g : rng) :
  main_instances_old Xtrain Xtest (d a) = Some instances_old ->
  main_sweep rng srandom random_binning_feature fit_and_score
    a Xtrain Xtest g
  = Some ((fun grid : double * double =>
             sweep_point_alone srandom random_binning_feature fit_and_score
               a instances_old grid.1 grid.2)
          <$> list_prod (List_lambda a) (List_sigma a)).
Proof.
  intros Hold. unfold main_sweep.
  destruct (main_lambda_loop_alone srandom random_binning_feature
              fit_and_score a Xtrain Xtest instances_old Hold
              (List_lambda a) g) as [g' ->].
  cbn [fmap option_fmap option_map fst]. f_equal.
  induction (List_lambda a) as [|lambda lambdas IH]; [done|].
  cbn [fmap list_fmap concat list_prod]. rewrite fmap_app. f_equal; [|exact IH].
  clear. induction (List_sigma a) as [|sigma sigmas IH]; [done|].
  cbn. by rewrite <- IH.
Qed.

Lemma main_sweep_combinations_alone_witness :
  main_sweep Z toy_srandom toy_random_binning_feature toy_fit_and_score
    toy_Args toy_Xtrain toy_Xtest 42
  = Some [sweep_point_alone toy_srandom toy_random_binning_feature
            toy_fit_and_score toy_Args [[(1, dec 1 1)]; [(2, dec 2 1)]]
            (dec 1 1) (dec 5 1);
          sweep_point_alone toy_srandom toy_random_binning_feature
            toy_fit_and_score toy_Args [[(1, dec 1 1)]; [(2, dec 2 1)]]
            (dec 10 1) (dec 5 1)].
Proof.
  apply (main_sweep_combinations_alone Z toy_srandom
           toy_random_binning_feature toy_fit_and_score
           toy_Args toy_Xtrain toy_Xtest [[(1, dec 1 1)]; [(2, dec 2 1)]] 42).
  reflexivity.
Defined.

(** ** The random number routines *)

Lemma draws_S {rng} (random : rng -> Z * rng) (k : nat) (g : rng) :
  draws rng random (S k) g = (random (draws rng random k g)).2.
Proof. reflexivity. Qed.

Lemma uniform_range (RAND_MAX x : Z) :
  0 < RAND_MAX -> 0 <= x <= RAND_MAX ->
  exists q, uniform RAND_MAX x = Fin q /\ (0 <= q)%Qc /\ (q <= 1)%Qc.
Proof.
  intros HR Hx. unfold uniform, of_long. cbn [ddiv].
  assert (0 < Qc_of_Z RAND_MAX)%Qc as HR'.
  { rewrite <- Z2Qc_inj_0. by apply (proj1 (Z2Qc_inj_lt _ _)). }
  assert (Qc_of_Z RAND_MAX <> 0%Qc) as HR0.
  { intros H. rewrite H in HR'. by apply Qclt_irrefl in HR'. }
  rewrite bool_decide_eq_false_2 by done.
  eexists. split; [done|]. split.
  - apply Qcmult_nonneg_nonneg.
    + rewrite <- Z2Qc_inj_0. apply (proj1 (Z2Qc_inj_le _ _)). lia.
    + apply Qclt_le_weak, Qcinv_pos, HR'.
  - apply (Qcmult_lt_0_le_reg_r _ _ (Qc_of_Z RAND_MAX) HR').
    rewrite Qcmult_1_l. unfold Qcdiv.
    rewrite <- Qcmult_assoc, (Qcmult_comm (/ _)), Qcmult_inv_r by done.
    rewrite Qcmult_1_r. apply (proj1 (Z2Qc_inj_le _ _)). lia.
Qed.

(** X15. For [0 <= n] no larger than the array, [UniformRandom01] draws
    exactly [n] numbers and stores them in the order drawn: entry [i < n]
    is draw number [i] divided by [RAND_MAX], a value of the closed
    interval [0, 1] (both ends can occur); entries from [n] on are left
    alone. *)
Theorem UniformRandom01_fills_first_n
    (rng : Type) (random : rng -> Z * rng) (RAND_MAX : Z)
    (a : list double) (n : Z) (g : rng) :
  0 < RAND_MAX ->
  (forall g, 0 <= (random g).1 <= RAND_MAX) ->
  0 <= n <= Z.of_nat (length a) ->
  exists a',
    UniformRandom01 rng random RAND_MAX a n g
      = Some (a', draws rng random (Z.to_nat n) g) /\
    length a' = length a /\
    (forall i, 0 <= i < n ->
       rd a' i = Some (uniform RAND_MAX
                         (random (draws rng random (Z.to_nat i) g)).1) /\
       exists q, rd a' i = Some (Fin q) /\ (0 <= q)%Qc /\ (q <= 1)%Qc) /\
    (forall i, n <= i -> rd a' i = rd a i).
Proof.
  intros HR Hrandom Hn. unfold UniformRandom01.
  destruct (for_range_invariant
              (fun k st =>
                 st.2 = draws rng random (Z.to_nat k) g /\
                 length st.1 = length a /\
                 (forall i, 0 <= i < k ->
                    rd st.1 i = Some (uniform RAND_MAX
                      (random (draws rng random (Z.to_nat i) g)).1)) /\
                 (forall i, k <= i -> rd st.1 i = rd a i))
              (fun i st =>
                 let x := random st.2 in
                 a' ← wr st.1 i (uniform RAND_MAX x.1);
                 Some (a', x.2))
              (Z.to_nat n) 0 (a, g)) as ([a' g'] & Hrun & Hg & Hlen & Hin & Hout).
  - intros k [a1 g1] Hk (Hg & Hlen & Hin & Hout). cbn [fst snd] in *.
    rewrite wr_Some by lia. cbn [mbind option_bind].
    eexists; split; [done|]. cbn [fst snd]. repeat split.
    + replace (Z.to_nat (k + 1)) with (S (Z.to_nat k)) by lia.
      by rewrite draws_S, Hg.
    + by rewrite length_insert.
    + intros i Hi. rewrite rd_insert by lia. case_decide as Hik.
      * subst i. by rewrite Hg.
      * apply Hin. lia.
    + intros i Hi. rewrite rd_insert by lia.
      rewrite decide_False by lia. apply Hout. lia.
  - cbn [fst snd]. repeat split; try done. intros; lia.
  - cbn [fst snd] in *. exists a'.
    replace (0 + Z.of_nat (Z.to_nat n)) with n in * by lia.
    rewrite Hrun, Hg. repeat split; try done.
    + by apply Hin.
    + rewrite Hin by done.
      destruct (uniform_range RAND_MAX
                  (random (draws rng random (Z.to_nat i) g)).1 HR
                  (Hrandom _)) as (q & -> & Hq0 & Hq1).
      by exists q.
Qed.

Lemma UniformRandom01_fills_first_n_witness :
  exists a',
    UniformRandom01 Z toy_random 7 [NaN; NaN; NaN] 2 6 = Some (a', 8) /\
    rd a' 2 = Some NaN.
Proof.
  destruct (UniformRandom01_fills_first_n Z toy_random 7 [NaN; NaN; NaN] 2 6)
    as (a' & Hrun & _ & _ & Hout).
  - lia.
  - intros g0. unfold toy_random. cbn [fst].
    pose proof (Z.mod_pos_bound g0 8). lia.
  - cbn. lia.
  - exists a'. split; [exact Hrun|]. apply (Hout 2). lia.
Defined.

Lemma draws_SS {rng} (random : rng -> Z * rng) (RAND_MAX : Z)
    (sqrt log : double -> double) (k : nat) (g : rng) :
  draws rng random (S (S k)) g
  = (box_muller rng random RAND_MAX sqrt log (draws rng random k g)).2.
Proof. reflexivity. Qed.

Lemma StandardNormal_run
    (rng : Type) (random : rng -> Z * rng) (RAND_MAX : Z)
    (sqrt log cos sin : double -> double)
    (a : list double) (n : Z) (g : rng) :
  0 <= n <= Z.of_nat (length a) -> n <= INT_MAX ->
  let bm k := box_muller rng random RAND_MAX sqrt log (draws rng random k g) in
  exists a',
    StandardNormal rng random RAND_MAX sqrt log cos sin a n g
      = Some (a', draws rng random (Z.to_nat (n + n mod 2)) g) /\
    length a' = length a /\
    (forall i, 0 <= i -> 2 * i + 1 < n ->
       rd a' (2 * i)
         = Some (dmul (bm (Z.to_nat (2 * i))).1.1
                   (cos (bm (Z.to_nat (2 * i))).1.2)) /\
       rd a' (2 * i + 1)
         = Some (dmul (bm (Z.to_nat (2 * i))).1.1
                   (sin (bm (Z.to_nat (2 * i))).1.2))) /\
    (n mod 2 = 1 ->
       rd a' (n - 1)
         = Some (dmul (bm (Z.to_nat (n - 1))).1.1
                   (cos (bm (Z.to_nat (n - 1))).1.2))) /\
    (forall i, n <= i -> rd a' i = rd a i).
Proof.
  intros Hn Hint bm. unfold StandardNormal.
  assert (Z.quot n 2 = n / 2) as Hquot by (apply Z.quot_div_nonneg; lia).
  assert (Z.rem n 2 = n mod 2) as Hrem by (apply Z.rem_mod_nonneg; lia).
  rewrite Hquot, Hrem.
  pose proof (Z.div_mod n 2 ltac:(lia)) as Hdm.
  pose proof (Z.mod_pos_bound n 2 ltac:(lia)) as Hmb.
  match goal with
  | |- context [for_range ?cnt ?lo ?body ?s0] =>
      destruct (for_range_invariant
              (fun k st =>
                 st.2 = draws rng random (Z.to_nat (2 * k)) g /\
                 length st.1 = length a /\
                 (forall i, 0 <= i < k ->
                    rd st.1 (2 * i)
                      = Some (dmul (bm (Z.to_nat (2 * i))).1.1
                                (cos (bm (Z.to_nat (2 * i))).1.2)) /\
                    rd st.1 (2 * i + 1)
                      = Some (dmul (bm (Z.to_nat (2 * i))).1.1
                                (sin (bm (Z.to_nat (2 * i))).1.2))) /\
                 (forall i, 2 * k <= i -> rd st.1 i = rd a i))
              body cnt lo s0)
        as ([a1 g1] & -> & Hg & Hlen & Hin & Hout)
  end.
  - intros k [a1 g1] Hk (Hg & Hlen & Hin & Hout). cbn [fst snd] in *.
    assert (0 <= k < n / 2) as Hk' by lia. clear Hk.
    assert (int_mul 2 k = 2 * k) as ->.
    { apply wrap32_id. unfold INT_MIN, INT_MAX in *. lia. }
    assert (int_add (2 * k) 1 = 2 * k + 1) as ->.
    { apply wrap32_id. unfold INT_MIN, INT_MAX in *. lia. }
    rewrite wr_Some by lia. cbn [mbind option_bind].
    rewrite wr_Some by (rewrite length_insert; lia). cbn [mbind option_bind].
    eexists; split; [done|]. cbn [fst snd]. repeat split.
    + replace (Z.to_nat (2 * (k + 1))) with (S (S (Z.to_nat (2 * k)))) by lia.
      by rewrite (draws_SS random RAND_MAX sqrt log), Hg.
    + by rewrite !length_insert.
    + destruct (decide (i = k)) as [->|Hne].
      * rewrite rd_insert by (rewrite length_insert; lia).
        rewrite decide_False by lia. rewrite rd_insert by lia.
        rewrite decide_True by done. subst bm. cbn beta. by rewrite Hg.
      * rewrite rd_insert by (rewrite length_insert; lia).
        rewrite decide_False by lia. rewrite rd_insert by lia.
        rewrite decide_False by lia. apply Hin. lia.
    + destruct (decide (i = k)) as [->|Hne].
      * rewrite rd_insert by (rewrite length_insert; lia).
        rewrite decide_True by done. subst bm. cbn beta. by rewrite Hg.
      * rewrite rd_insert by (rewrite length_insert; lia).
        rewrite decide_False by lia. rewrite rd_insert by lia.
        rewrite decide_False by lia. apply Hin. lia.
    + intros i Hi. rewrite rd_insert by (rewrite length_insert; lia).
      rewrite decide_False by lia. rewrite rd_insert by lia.
      rewrite decide_False by lia. apply Hout. lia.
  - cbn [fst snd]. repeat split; try done; intros; lia.
  - cbn [mbind option_bind fst snd] in *.
    replace (0 + Z.of_nat (Z.to_nat (n / 2))) with (n / 2) in * by lia.
    case_decide as Hodd.
    + assert (int_sub n 1 = n - 1) as ->.
      { apply wrap32_id. unfold INT_MIN, INT_MAX in *. lia. }
      rewrite wr_Some by lia. cbn [mbind option_bind].
      eexists; split; [|split; [|split; [|split]]].
      * do 2 f_equal.
        replace (Z.to_nat (n + n mod 2))
          with (S (S (Z.to_nat (2 * (n / 2))))) by lia.
        by rewrite (draws_SS random RAND_MAX sqrt log), Hg.
      * by rewrite length_insert.
      * intros i Hi0 Hi. rewrite !rd_insert by lia.
        rewrite !decide_False by lia. apply Hin. lia.
      * intros _. rewrite rd_insert by lia. rewrite decide_True by done.
        subst bm. cbn beta. rewrite Hg.
        by replace (Z.to_nat (n - 1)) with (Z.to_nat (2 * (n / 2))) by lia.
      * intros i Hi. rewrite rd_insert by lia.
        rewrite decide_False by lia. apply Hout. lia.
    + exists a1. split; [|split; [|split; [|split]]].
      * do 2 f_equal. rewrite Hg. f_equal. lia.
      * done.
      * intros i Hi0 Hi. apply Hin. lia.
      * intros Hodd'. lia.
      * intros i Hi. apply Hout. lia.
Qed.

(** X16. For [0 <= n] no larger than the array, [StandardNormal] writes
    the entries [0 .. n-1] and no other: the pair [(2i, 2i+1)] holds the
    cosine and the sine value of one Box-Muller transform of two
    consecutive draws.  An odd [n] takes two more draws for the last
    entry, so that the generator advances by [n] draws when [n] is even
    and by [n + 1] when it is odd. *)
Theorem StandardNormal_fills_first_n
    (rng : Type) (random : rng -> Z * rng) (RAND_MAX : Z)
    (sqrt log cos sin : double -> double)
    (a : list double) (n : Z) (g : rng) :
  0 <= n <= Z.of_nat (length a) -> n <= INT_MAX ->
  let bm k := box_muller rng random RAND_MAX sqrt log (draws rng random k g) in
  exists a',
    StandardNormal rng random RAND_MAX sqrt log cos sin a n g
      = Some (a', draws rng random (Z.to_nat (n + n mod 2)) g) /\
    length a' = length a /\
    (forall i, 0 <= i -> 2 * i + 1 < n ->
       rd a' (2 * i)
         = Some (dmul (bm (Z.to_nat (2 * i))).1.1
                   (cos (bm (Z.to_nat (2 * i))).1.2)) /\
       rd a' (2 * i + 1)
         = Some (dmul (bm (Z.to_nat (2 * i))).1.1
                   (sin (bm (Z.to_nat (2 * i))).1.2))) /\
    (n mod 2 = 1 ->
       rd a' (n - 1)
         = Some (dmul (bm (Z.to_nat (n - 1))).1.1
                   (cos (bm (Z.to_nat (n - 1))).1.2))) /\
    (forall i, n <= i -> rd a' i = rd a i).
Proof. apply StandardNormal_run. Qed.

Lemma StandardNormal_fills_first_n_witness :
  exists a',
    StandardNormal Z toy_random 7 id id id id [NaN; NaN; NaN; NaN] 3 0
      = Some (a', 4) /\
    rd a' 3 = Some NaN.
Proof.
  destruct (StandardNormal_fills_first_n Z toy_random 7 id id id id
              [NaN; NaN; NaN; NaN] 3 0) as (a' & Hrun & _ & _ & _ & Hout).
  - cbn. lia.
  - vm_compute. discriminate.
  - exists a'. split; [exact Hrun|]. apply (Hout 3). lia.
Defined.

(** X17. [MultivariateStudentT1] is [StandardNormal] followed by one
    common scaling: it fills the first [n] entries as [StandardNormal]
    does, takes two more draws for a further Box-Muller value [b] and
    divides each of the [n] entries by [fabs(b)]; entries from [n] on are
    left alone, and the generator advances by [n + n mod 2 + 2] draws. *)
Theorem MultivariateStudentT1_scales_StandardNormal
    (rng : Type) (random : rng -> Z * rng) (RAND_MAX : Z)
    (sqrt log cos sin : double -> double)
    (a : list double) (n : Z) (g : rng) :
  0 <= n <= Z.of_nat (length a) -> n <= INT_MAX ->
  exists a1 g1 b a2,
    StandardNormal rng random RAND_MAX sqrt log cos sin a n g = Some (a1, g1) /\
    StandardNormal rng random RAND_MAX sqrt log cos sin [Fin 0%Qc] 1 g1
      = Some ([b], draws rng random 2 g1) /\
    MultivariateStudentT1 rng random RAND_MAX sqrt log cos sin a n g
      = Some (a2, draws rng random (Z.to_nat (n + n mod 2) + 2) g) /\
    length a2 = length a /\
    (forall i, 0 <= i < n ->
       rd a2 i = (fun x => ddiv x (dabs b)) <$> rd a1 i) /\
    (forall i, n <= i -> rd a2 i = rd a i).
Proof.
  intros Hn Hint. unfold MultivariateStudentT1.
  destruct (StandardNormal_run rng random RAND_MAX sqrt log cos sin a n g
              Hn Hint) as (a1 & Ha1 & Hlen1 & _ & _ & Hout1).
  set (g1 := draws rng random (Z.to_nat (n + n mod 2)) g) in *.
  destruct (StandardNormal_run rng random RAND_MAX sqrt log cos sin
              [Fin 0%Qc] 1 g1) as (sb & Hsb & Hlenb & _ & _ & _).
  { cbn. lia. }
  { vm_compute. discriminate. }
  change (Z.to_nat (1 + 1 mod 2)) with 2%nat in Hsb.
  destruct sb as [|b [|? ?]]; try discriminate Hlenb.
  rewrite Ha1. cbn [mbind option_bind fst snd]. rewrite Hsb.
  cbn [mbind option_bind fst snd].
  change (rd [b] 0) with (Some b). cbn [mbind option_bind].
  match goal with
  | |- context [for_range ?cnt ?lo ?body ?s0] =>
      destruct (for_range_invariant
                  (fun k a' =>
                     length a' = length a1 /\
                     (forall i, 0 <= i < k ->
                        rd a' i = (fun x => ddiv x (dabs b)) <$> rd a1 i) /\
                     (forall i, k <= i -> rd a' i = rd a1 i))
                  body cnt lo s0) as (a2 & -> & Hlen2 & Hin2 & Hout2)
  end.
  - intros k a' Hk (Hlen' & Hin' & Hout').
    destruct (rd_is_Some a1 k) as [x Hx]; [lia|].
    rewrite Hout' by lia. rewrite Hx. cbn [mbind option_bind].
    rewrite wr_Some by lia. eexists; split; [done|]. repeat split.
    + by rewrite length_insert.
    + intros i Hi. rewrite rd_insert by lia. case_decide as Hik.
      * subst i. by rewrite Hx.
      * apply Hin'. lia.
    + intros i Hi. rewrite rd_insert by lia.
      rewrite decide_False by lia. apply Hout'. lia.
  - repeat split; try done. intros; lia.
  - replace (0 + Z.of_nat (Z.to_nat n)) with n in * by lia.
    cbn [mbind option_bind].
    exists a1, g1, b, a2. split; [done|]. split; [done|]. split.
    + do 2 f_equal. subst g1. unfold draws.
      by rewrite Nat.add_comm, Nat.iter_add.
    + split; [lia|]. split; [done|].
      intros i Hi. rewrite Hout2 by done. by apply Hout1.
Qed.

Lemma MultivariateStudentT1_scales_StandardNormal_witness :
  exists a2,
    MultivariateStudentT1 Z toy_random 7 id id id id [NaN; NaN; NaN] 2 0
      = Some (a2, 4) /\
    rd a2 2 = Some NaN.
Proof.
  destruct (MultivariateStudentT1_scales_StandardNormal
              Z toy_random 7 id id id id [NaN; NaN; NaN] 2 0)
    as (a1 & g1 & b & a2 & _ & _ & Hrun & _ & _ & Hout).
  - cbn. lia.
  - vm_compute. discriminate.
  - exists a2. split; [exact Hrun|]. apply (Hout 2). lia.
Defined.

(** X18. For [0 <= n] no larger than the array, [StudentT1] takes one
    draw per entry, in order: with [V] draw number [i] over [RAND_MAX],
    entry [i < n] becomes [tan(2*M_PI*V)], negated when [V > 0.5];
    entries from [n] on are left alone and the generator advances by [n]
    draws. *)
Theorem StudentT1_one_draw_per_entry
    (rng : Type) (random : rng -> Z * rng) (RAND_MAX : Z) (M_PI : double)
    (tan : double -> double) (a : list double) (n : Z) (g : rng) :
  0 <= n <= Z.of_nat (length a) ->
  let entry i :=
    let V := uniform RAND_MAX (random (draws rng random (Z.to_nat i) g)).1 in
    let t := tan (dmul (dmul (Fin (Qc_of_Z 2)) M_PI) V) in
    if dgt V (Fin (Q2Qc (1 # 2))) then dneg t else t in
  exists a',
    StudentT1 rng random RAND_MAX M_PI tan a n g
      = Some (a', draws rng random (Z.to_nat n) g) /\
    length a' = length a /\
    (forall i, 0 <= i < n -> rd a' i = Some (entry i)) /\
    (forall i, n <= i -> rd a' i = rd a i).
Proof.
  intros Hn entry. unfold StudentT1.
  match goal with
  | |- context [for_range ?cnt ?lo ?body ?s0] =>
      destruct (for_range_invariant
                  (fun k st =>
                     st.2 = draws rng random (Z.to_nat k) g /\
                     length st.1 = length a /\
                     (forall i, 0 <= i < k -> rd st.1 i = Some (entry i)) /\
                     (forall i, k <= i -> rd st.1 i = rd a i))
                  body cnt lo s0)
        as ([a' g'] & Hrun & Hg & Hlen & Hin & Hout)
  end.
  - intros k [a1 g1] Hk (Hg & Hlen & Hin & Hout). cbn [fst snd] in *.
    rewrite wr_Some by lia. cbn [mbind option_bind].
    assert (exists a2,
              (if dgt (uniform RAND_MAX (random g1).1) (Fin (Q2Qc (1 # 2)))
               then x ← rd (<[Z.to_nat k :=
                               tan (dmul (dmul (Fin (Qc_of_Z 2)) M_PI)
                                      (uniform RAND_MAX (random g1).1))]> a1) k;
                    wr (<[Z.to_nat k :=
                           tan (dmul (dmul (Fin (Qc_of_Z 2)) M_PI)
                                  (uniform RAND_MAX (random g1).1))]> a1) k
                      (dneg x)
               else Some (<[Z.to_nat k :=
                             tan (dmul (dmul (Fin (Qc_of_Z 2)) M_PI)
                                    (uniform RAND_MAX (random g1).1))]> a1))
              = Some a2 /\
              a2 = <[Z.to_nat k := entry k]> a1) as (a2 & -> & ->).
    { subst entry. cbn beta zeta. rewrite <- Hg.
      destruct (dgt (uniform RAND_MAX (random g1).1) (Fin (Q2Qc (1 # 2)))).
      - rewrite rd_insert by lia. rewrite decide_True by done.
        cbn [mbind option_bind].
        rewrite wr_Some by (rewrite length_insert; lia).
        eexists; split; [done|]. by rewrite list_insert_insert_eq.
      - by eexists. }
    cbn [mbind option_bind]. eexists; split; [done|]. cbn [fst snd].
    repeat split.
    + replace (Z.to_nat (k + 1)) with (S (Z.to_nat k)) by lia.
      by rewrite draws_S, Hg.
    + by rewrite length_insert.
    + intros i Hi. rewrite rd_insert by lia. case_decide as Hik.
      * by subst i.
      * apply Hin. lia.
    + intros i Hi. rewrite rd_insert by lia.
      rewrite decide_False by lia. apply Hout. lia.
  - cbn [fst snd]. repeat split; try done. intros; lia.
  - cbn [fst snd] in *. exists a'.
    replace (0 + Z.of_nat (Z.to_nat n)) with n in * by lia.
    rewrite Hrun, Hg. repeat split; done.
Qed.

Lemma StudentT1_one_draw_per_entry_witness :
  exists a',
    StudentT1 Z toy_random 7 (Fin (Qc_of_Z 3)) id [NaN; NaN; NaN] 2 6
      = Some (a', 8) /\
    rd a' 2 = Some NaN.
Proof.
  destruct (StudentT1_one_draw_per_entry Z toy_random 7 (Fin (Qc_of_Z 3)) id
              [NaN; NaN; NaN] 2 6) as (a' & Hrun & _ & _ & Hout).
  - cbn. lia.
  - exists a'. split; [exact Hrun|]. apply (Hout 2). lia.
Defined.
